(** * lsrv: discovery and correlation of local development servers

    A shallow embedding of [internal/detector], [internal/git],
    [internal/platform] and the row and colour functions of
    [internal/formatter] of lsrv, together with the properties of the
    discovery pipeline and of the table rows.

    Go strings are byte strings ([string]); Go's [int] is taken at its
    64-bit width and modelled in [Z]; Go maps are [gmap]s and the sets the
    code builds as [map[string]bool] are [gset]s.  Everything the program
    obtains from the operating system (command output, symbolic links, the
    file system, git) is read from an explicit [World]. *)

From Stdlib Require Import ZArith Ascii String List Lia.
From Stdlib Require Import DecimalString.
From stdpp Require Import gmap strings list sorting.

Local Open Scope Z_scope.

(** ** Go library primitives on byte strings *)

Module Go.

Definition byte_of (c : ascii) : N := N_of_ascii c.

Definition is_digit (c : ascii) : bool :=
  ((48 <=? byte_of c) && (byte_of c <=? 57))%N.

Definition digit_val (c : ascii) : Z := Z.of_N (byte_of c) - 48.

(** [strings.HasPrefix], [strings.HasSuffix]. *)
Definition HasPrefix (s p : string) : bool := String.prefix p s.

Fixpoint drop (n : nat) (s : string) : string :=
  match n, s with
  | O, _ => s
  | S n', String _ r => drop n' r
  | S _, EmptyString => EmptyString
  end.

Fixpoint take (n : nat) (s : string) : string :=
  match n, s with
  | O, _ => EmptyString
  | S n', String c r => String c (take n' r)
  | S _, EmptyString => EmptyString
  end.

Definition HasSuffix (s suf : string) : bool :=
  (String.length suf <=? String.length s)%nat &&
  String.eqb (drop (String.length s - String.length suf) s) suf.

(** [strings.Contains]. *)
Fixpoint Contains (s substr : string) : bool :=
  HasPrefix s substr ||
  match s with
  | EmptyString => false
  | String _ r => Contains r substr
  end.

(** [strings.TrimPrefix], [strings.TrimSuffix]. *)
Definition TrimPrefix (s p : string) : string :=
  if HasPrefix s p then drop (String.length p) s else s.

Definition TrimSuffix (s suf : string) : string :=
  if HasSuffix s suf then take (String.length s - String.length suf) s else s.

(** [strings.Split(s, sep)] for a one-byte separator, the only way the
    program calls it: the pieces between the separators, in order; one
    piece more than there are separators. *)
Fixpoint Split (s : string) (sep : ascii) : list string :=
  match s with
  | EmptyString => [EmptyString]
  | String c r =>
      if Ascii.eqb c sep then EmptyString :: Split r sep
      else match Split r sep with
           | p :: ps => String c p :: ps
           | [] => [String c EmptyString]
           end
  end.

(** [strings.Join]. *)
Fixpoint Join (elems : list string) (sep : string) : string :=
  match elems with
  | [] => EmptyString
  | [e] => e
  | e :: es => e +:+ sep +:+ Join es sep
  end.

(** Width in bytes of the white-space rune ([unicode.IsSpace]) that starts
    [s] in its UTF-8 encoding; [0] when [s] does not start with one.  The
    runes are U+0009..U+000D, U+0020, U+0085, U+00A0, U+1680,
    U+2000..U+200A, U+2028, U+2029, U+202F, U+205F and U+3000. *)
Definition space_width (s : string) : nat :=
  match s with
  | EmptyString => 0
  | String c0 r0 =>
      let b0 := byte_of c0 in
      if (((9 <=? b0) && (b0 <=? 13)) || (b0 =? 32))%N then 1
      else match r0 with
           | EmptyString => 0
           | String c1 r1 =>
               let b1 := byte_of c1 in
               if (b0 =? 194)%N then
                 if ((b1 =? 133) || (b1 =? 160))%N then 2 else 0
               else match r1 with
                    | EmptyString => 0
                    | String c2 _ =>
                        let b2 := byte_of c2 in
                        if ((b0 =? 225) && (b1 =? 154) && (b2 =? 128))%N then 3
                        else if ((b0 =? 226) && (b1 =? 128) &&
                                 (((128 <=? b2) && (b2 <=? 138)) ||
                                  (b2 =? 168) || (b2 =? 169) || (b2 =? 175)))%N then 3
                        else if ((b0 =? 226) && (b1 =? 129) && (b2 =? 159))%N then 3
                        else if ((b0 =? 227) && (b1 =? 128) && (b2 =? 128))%N then 3
                        else 0
                    end
           end
  end%nat.

(** [strings.Fields]: the maximal runs of bytes that lie between
    white-space runes.  [cur] is the field being read, in reverse; [skip]
    counts the remaining bytes of a white-space rune already recognised. *)
Fixpoint Fields_go (cur : option string) (skip : nat) (s : string) : list string :=
  match s with
  | EmptyString => option_list (String.rev <$> cur)
  | String c r =>
      match skip with
      | S k => Fields_go cur k r
      | O =>
          match space_width s with
          | O => Fields_go (Some (String c (default EmptyString cur))) O r
          | S k => option_list (String.rev <$> cur) ++ Fields_go None k r
          end
      end
  end.

Definition Fields (s : string) : list string := Fields_go None O s.

(** [s] is a sequence of white-space runes and nothing else. *)
Fixpoint all_space_go (skip : nat) (s : string) : bool :=
  match s with
  | EmptyString => true
  | String _ r =>
      match skip with
      | S k => all_space_go k r
      | O => match space_width s with
             | O => false
             | S k => all_space_go k r
             end
      end
  end.

Fixpoint TrimLeftSpace_go (skip : nat) (s : string) : string :=
  match s with
  | EmptyString => EmptyString
  | String _ r =>
      match skip with
      | S k => TrimLeftSpace_go k r
      | O => match space_width s with
             | O => s
             | S k => TrimLeftSpace_go k r
             end
      end
  end.

Fixpoint TrimRightSpace (s : string) : string :=
  match s with
  | EmptyString => EmptyString
  | String c r => if all_space_go O s then EmptyString else String c (TrimRightSpace r)
  end.

(** [strings.TrimSpace]. *)
Definition TrimSpace (s : string) : string :=
  TrimRightSpace (TrimLeftSpace_go O s).

(** [strconv.Atoi]: an optional sign and at least one decimal digit, and
    a value that fits the 64-bit [int]; anything else is an error. *)
Fixpoint digits_val (acc : Z) (s : string) : option Z :=
  match s with
  | EmptyString => Some acc
  | String c r => if is_digit c then digits_val (10 * acc + digit_val c) r else None
  end.

Definition unsigned_val (s : string) : option Z :=
  match s with
  | EmptyString => None
  | _ => digits_val 0 s
  end.

Definition min_int : Z := - 2 ^ 63.
Definition max_int : Z := 2 ^ 63 - 1.

Definition in_int_range (n : Z) : option Z :=
  if (min_int <=? n) && (n <=? max_int) then Some n else None.

Definition Atoi (s : string) : option Z :=
  match s with
  | String "-"%char r => n ← unsigned_val r; in_int_range (- n)
  | String "+"%char r => n ← unsigned_val r; in_int_range n
  | _ => n ← unsigned_val s; in_int_range n
  end.

(** [strconv.Itoa] and the verb [%d]: decimal, with a minus sign for a
    negative number. *)
Definition Itoa (n : Z) : string := NilZero.string_of_int (Z.to_int n).

(** [filepath.Base] on Unix: the last element of the path after the
    trailing slashes are removed; ["."] for the empty path and ["/"] for
    a path of slashes only. *)
Fixpoint strip_trailing_slashes (s : string) : string :=
  match s with
  | EmptyString => EmptyString
  | String c r =>
      match strip_trailing_slashes r with
      | EmptyString => if Ascii.eqb c "/" then EmptyString else String c EmptyString
      | r' => String c r'
      end
  end.

Definition Base (path : string) : string :=
  match path with
  | EmptyString => "."
  | _ =>
      match strip_trailing_slashes path with
      | EmptyString => "/"
      | p => List.last (Split p "/") EmptyString
      end
  end.

(** [bufio.Scanner] with the default split function [ScanLines] and the
    default buffer: the lines of the input without their line ends (a
    final empty line is not a token, one trailing carriage return is
    dropped); scanning stops for good at a line that does not fit the
    buffer of [MaxScanTokenSize] bytes. *)
Definition MaxScanTokenSize : N := 65536.

Definition raw_lines (s : string) : list string :=
  match s with
  | EmptyString => []
  | _ => let ls := Split s "010" in
         match List.last ls EmptyString with
         | EmptyString => removelast ls
         | _ => ls
         end
  end.

Definition dropCR (s : string) : string := TrimSuffix s (String "013" EmptyString).

Fixpoint fitting (ls : list string) : list string :=
  match ls with
  | [] => []
  | l :: r => if (N.of_nat (String.length l) <? MaxScanTokenSize)%N then l :: fitting r else []
  end.

Definition ScanLines (s : string) : list string := dropCR <$> fitting (raw_lines s).

(** [filepath.Clean] on Unix, element by element: empty elements and [.]
    vanish, [..] removes the element before it, is dropped at the root
    and is kept at the start of a relative path; the empty result is
    [.].  [out] is the stack of elements kept so far, last one first. *)
Fixpoint Clean_go (rooted : bool) (out : list string) (elems : list string) : list string :=
  match elems with
  | [] => out
  | e :: es =>
      if String.eqb e "" || String.eqb e "." then Clean_go rooted out es
      else if String.eqb e ".." then
        match out with
        | top :: out' =>
            if String.eqb top ".." then Clean_go rooted (e :: out) es
            else Clean_go rooted out' es
        | [] => if rooted then Clean_go rooted out es else Clean_go rooted (e :: out) es
        end
      else Clean_go rooted (e :: out) es
  end.

Definition IsAbs (path : string) : bool := HasPrefix path "/".

Definition Clean (path : string) : string :=
  let rooted := IsAbs path in
  let body := Join (rev (Clean_go rooted [] (Split path "/"))) "/" in
  if rooted then String "/" body
  else match body with
       | EmptyString => "."
       | _ => body
       end.

(** [filepath.Join]: the elements from the first non-empty one on, joined
    with slashes and cleaned; the empty string when all are empty. *)
Fixpoint PathJoin (elems : list string) : string :=
  match elems with
  | [] => EmptyString
  | e :: es => if String.eqb e "" then PathJoin es else Clean (Join elems "/")
  end.

End Go.

(** ** Results of fallible operations

    A Go pair [(value, error)] with a non-nil error is [Err] with the text
    of the error, and [Ok] otherwise. *)

Definition error := string.

Inductive result (A : Type) : Type :=
| Ok (a : A)
| Err (e : error).
Arguments Ok {A} a.
Arguments Err {A} e.

Definition is_Err {A} (r : result A) : bool :=
  match r with Err _ => true | Ok _ => false end.

(** ** The world outside the program

    One run of the program against a fixed state of the machine: every
    external command and every system call is a function of its arguments.
    Commands are given by the arguments that vary. *)

Record World := {
  (** [lsof -iTCP -sTCP:LISTEN -n -P]: its standard output. *)
  run_lsof_listen : result string;
  (** [lsof -a -p <pids> -d cwd -Fn]. *)
  run_lsof_cwd : string → result string;
  (** [os.Stat("/System/Library/CoreServices/Finder.app")] succeeds. *)
  finder_app_exists : bool;
  (** [os.Lstat]: whether the mode has [os.ModeSymlink]. *)
  Lstat_symlink : string → result bool;
  (** [os.Readlink]. *)
  Readlink : string → result string;
  (** [os.Getwd]. *)
  Getwd : result string;
  (** [os.Stat]: whether the path is a directory. *)
  Stat_IsDir : string → result bool;
  (** [git -C <dir> rev-parse --git-dir] exits with status 0. *)
  git_rev_parse_git_dir : string → bool;
  (** [git -C <dir> config --get remote.origin.url]: its standard output. *)
  git_config_get_remote_origin_url : string → result string;
  (** [git -C <dir> rev-parse --abbrev-ref HEAD]: its standard output. *)
  git_rev_parse_abbrev_ref_HEAD : string → result string;
}.

(** [filepath.Abs] on Unix. *)
Definition filepath_Abs (w : World) (path : string) : result string :=
  if Go.IsAbs path then Ok (Go.Clean path)
  else match Getwd w with
       | Err e => Err e
       | Ok wd => Ok (Go.PathJoin [wd; path])
       end.

(** ** internal/platform *)

Module platform.

Definition IsMacOS (w : World) : bool := finder_app_exists w.

(** [os.Stat] gives no error. *)
Definition FileExists (w : World) (path : string) : bool :=
  negb (is_Err (Stat_IsDir w path)).

Definition ValidateDir (w : World) (dir : string) : result string :=
  if String.eqb dir "" then Err "directory path is empty"
  else match filepath_Abs w dir with
       | Err e => Err ("failed to get absolute path: " +:+ e)
       | Ok cleaned =>
           match Stat_IsDir w cleaned with
           | Err e => Err ("directory does not exist: " +:+ e)
           | Ok false => Err ("path is not a directory: " +:+ cleaned)
           | Ok true => Ok cleaned
           end
       end.

(** The error of [ValidatePID], [None] for [nil]. *)
Definition ValidatePID (pid : Z) : option error :=
  if pid <=? 0 then Some ("pid must be positive: " +:+ Go.Itoa pid)
  else if pid >? 2147483647 then Some ("pid exceeds maximum value: " +:+ Go.Itoa pid)
  else None.

End platform.

(** ** internal/git

    The functions log their failures to standard error; the log is not
    part of the model. *)

Module git.

Definition IsRepo (w : World) (dir : string) : bool :=
  match platform.ValidateDir w dir with
  | Err _ => false
  | Ok cleanedDir =>
      let gitDir := Go.PathJoin [cleanedDir; ".git"] in
      match Stat_IsDir w gitDir with
      | Ok true => true
      | _ => git_rev_parse_git_dir w cleanedDir
      end
  end.

Definition GetRepoName (w : World) (dir : string) : string :=
  match platform.ValidateDir w dir with
  | Err _ => Go.Base dir
  | Ok cleanedDir =>
      match git_config_get_remote_origin_url w cleanedDir with
      | Ok (String c o) =>
          let url := Go.TrimSpace (String c o) in
          match Go.Split url "/" with
          | [] => Go.Base cleanedDir
          | parts => Go.TrimSuffix (List.last parts EmptyString) ".git"
          end
      | _ => Go.Base cleanedDir
      end
  end.

Definition GetBranch (w : World) (dir : string) : string :=
  match platform.ValidateDir w dir with
  | Err _ => "N/A"
  | Ok cleanedDir =>
      match git_rev_parse_abbrev_ref_HEAD w cleanedDir with
      | Err _ => "N/A"
      | Ok output => Go.TrimSpace output
      end
  end.

End git.

(** ** types *)

Module types.

Record Server := {
  Repo : string;
  Branch : string;
  Process : string;
  Port : Z;
  PID : Z;
  CWD : string;
}.

Definition ProjectType := string.

Definition ProjectTypeGo : ProjectType := "go".
Definition ProjectTypeRust : ProjectType := "rust".
Definition ProjectTypeNode : ProjectType := "node".
Definition ProjectTypePython : ProjectType := "python".
Definition ProjectTypeRuby : ProjectType := "ruby".
Definition ProjectTypeJava : ProjectType := "java".
Definition ProjectTypePHP : ProjectType := "php".
Definition ProjectTypeDotNet : ProjectType := "dotnet".
Definition ProjectTypeDeno : ProjectType := "deno".
Definition ProjectTypeBun : ProjectType := "bun".
Definition ProjectTypeElixir : ProjectType := "elixir".
Definition ProjectTypeUnknown : ProjectType := "unknown".

End types.

(** ** sort.Slice

    The program sorts with the library's [sort.Slice].  Its contract: the
    slice is rearranged in place, and it ends up in increasing order as far
    as [less] can tell, for a [less] that is a strict weak order; equal
    elements may be reversed from their original order.  The algorithm
    behind it is the library's and has changed between releases, so the
    pipeline is parameterised by any implementation of the contract. *)

Record StrictWeakOrder {A} (less : A → A → bool) : Prop := {
  swo_irrefl : ∀ x, less x x = false;
  swo_trans : ∀ x y z, less x y = true → less y z = true → less x z = true;
  swo_incomp_trans : ∀ x y z, less y x = false → less z y = false → less z x = false;
}.

Class SortSlice := {
  sort_Slice : ∀ {A}, (A → A → bool) → list A → list A;
  sort_Slice_Permutation : ∀ A (less : A → A → bool) (l : list A),
    sort_Slice less l ≡ₚ l;
  sort_Slice_StronglySorted : ∀ A (less : A → A → bool) (l : list A),
    StrictWeakOrder less →
    StronglySorted (λ x y, less y x = false) (sort_Slice less l);
}.

(** ** internal/detector *)

Module detector.
Import types.

(** [portRegex], [:(\d+)\s+\(LISTEN\)], and [FindStringSubmatch]: the
    leftmost match.  A run of digits is followed by white space and the
    white space by a parenthesis, so at a given colon the match, if there
    is one, takes all the digits and all the white space.  The result is
    the text of the group. *)
Definition is_regex_space (c : ascii) : bool :=
  let b := Go.byte_of c in
  ((b =? 9) || (b =? 10) || (b =? 12) || (b =? 13) || (b =? 32))%N.

Fixpoint span (p : ascii → bool) (s : string) : string * string :=
  match s with
  | EmptyString => (EmptyString, EmptyString)
  | String c r =>
      if p c then let '(a, b) := span p r in (String c a, b)
      else (EmptyString, s)
  end.

Definition portRegex_match_here (s : string) : option string :=
  match s with
  | String ":"%char r =>
      let '(digits, r1) := span Go.is_digit r in
      let '(spaces, r2) := span is_regex_space r1 in
      if String.eqb digits "" then None
      else if String.eqb spaces "" then None
      else if Go.HasPrefix r2 "(LISTEN)" then Some digits
      else None
  | _ => None
  end.

Fixpoint portRegex_FindStringSubmatch (s : string) : option string :=
  match portRegex_match_here s with
  | Some g => Some g
  | None =>
      match s with
      | EmptyString => None
      | String _ r => portRegex_FindStringSubmatch r
      end
  end.

Record gitInfo := { repo : string; branch : string }.

Record processInfo := { pid : Z; command : string; port : Z }.

Definition extractPort (line : string) : Z :=
  match portRegex_FindStringSubmatch line with
  | Some g => default 0 (Go.Atoi g)
  | None =>
      let fields := Go.Fields line in
      if (9 <=? length fields)%nat then
        match Go.Split (fields !!! 8%nat) ":" with
        | [] => 0
        | parts => default 0 (Go.Atoi (List.last parts EmptyString))
        end
      else 0
  end.

Definition isDevPort (port : Z) : bool :=
  if port <? 1024 then false
  else if port >=? 3000 then true
  else if port =? 2000 then true
  else false.

(** The body of the first loop of [FindServers]: the record of a line, or
    nothing when the loop goes on to the next line. *)
Definition scanLine (line : string) : option processInfo :=
  if Go.HasPrefix line "COMMAND" then None
  else
    let fields := Go.Fields line in
    if (length fields <? 9)%nat then None
    else
      let pidStr := fields !!! 1%nat in
      let command := fields !!! 0%nat in
      let port := extractPort line in
      if (port =? 0) || negb (isDevPort port) then None
      else match Go.Atoi pidStr with
           | None => None
           | Some pid =>
               match platform.ValidatePID pid with
               | Some _ => None
               | None => Some {| pid := pid; command := command; port := port |}
               end
           end.

(** The first loop: [processes] and [pids] grow by [append]. *)
Definition firstPass (lines : list string) : list processInfo * list Z :=
  fold_left
    (λ '(processes, pids) line,
       match scanLine line with
       | Some proc => (processes ++ [proc], pids ++ [pid proc])
       | None => (processes, pids)
       end)
    lines ([], []).

Definition getProcessCWD (w : World) (p : Z) : result string :=
  match platform.ValidatePID p with
  | Some e => Err e
  | None =>
      if platform.IsMacOS w then
        match run_lsof_cwd w (Go.Itoa p) with
        | Err e => Err e
        | Ok output =>
            match List.find (λ line, Go.HasPrefix line "n") (Go.ScanLines output) with
            | Some line => filepath_Abs w (Go.TrimPrefix line "n")
            | None => Err "could not determine cwd"
            end
        end
      else
        let link := "/proc/" +:+ Go.Itoa p +:+ "/cwd" in
        match Lstat_symlink w link with
        | Err e => Err e
        | Ok false => Err ("not a symlink: " +:+ link)
        | Ok true =>
            match Readlink w link with
            | Err e => Err e
            | Ok cwd => filepath_Abs w cwd
            end
        end
  end.

Definition fallbackGetCWDs (w : World) (pids : list Z) : gmap Z string :=
  fold_left
    (λ (cwdMap : gmap Z string) p,
       match getProcessCWD w p with
       | Ok cwd => if String.eqb cwd "" then cwdMap else <[p := cwd]> cwdMap
       | Err _ => cwdMap
       end)
    pids ∅.

(** One line of the batched answer; the state is the map and
    [currentPID]. *)
Definition batchLine (w : World) (st : gmap Z string * Z) (line : string)
  : gmap Z string * Z :=
  let '(cwdMap, currentPID) := st in
  if Go.HasPrefix line "p" then
    match Go.Atoi (Go.TrimPrefix line "p") with
    | Some p => (cwdMap, p)
    | None => (cwdMap, currentPID)
    end
  else if Go.HasPrefix line "n" && negb (currentPID =? 0) then
    match filepath_Abs w (Go.TrimPrefix line "n") with
    | Ok cleaned => (<[currentPID := cleaned]> cwdMap, 0)
    | Err _ => (cwdMap, 0)
    end
  else (cwdMap, currentPID).

Definition procLink (w : World) (cwdMap : gmap Z string) (p : Z) : gmap Z string :=
  let link := "/proc/" +:+ Go.Itoa p +:+ "/cwd" in
  match Lstat_symlink w link with
  | Ok true =>
      match Readlink w link with
      | Ok cwd =>
          match filepath_Abs w cwd with
          | Ok cleaned => <[p := cleaned]> cwdMap
          | Err _ => cwdMap
          end
      | Err _ => cwdMap
      end
  | _ => cwdMap
  end.

Definition batchGetProcessCWDs (w : World) (pids : list Z) : gmap Z string :=
  match pids with
  | [] => ∅
  | _ =>
      if platform.IsMacOS w then
        let pidList := Go.Join (Go.Itoa <$> pids) "," in
        match run_lsof_cwd w pidList with
        | Err _ => fallbackGetCWDs w pids
        | Ok output => (fold_left (batchLine w) (Go.ScanLines output) (∅, 0)).1
        end
      else fold_left (procLink w) pids ∅
  end.

(** The two goroutines of [getGitInfoParallel] write different fields and
    are joined before the value is read. *)
Definition getGitInfoParallel (w : World) (cwd : string) : gitInfo :=
  {| repo := git.GetRepoName w cwd; branch := git.GetBranch w cwd |}.

(** [batchCheckGitRepos] and [batchGetGitInfo]: one goroutine for each
    directory stores its answer under the directory; all are joined
    before the map is returned, and the answers do not depend on the
    order in which they arrive. *)
Definition batchCheckGitRepos (w : World) (dirs : gset string) : gmap string bool :=
  set_to_map (λ d, (d, git.IsRepo w d)) dirs.

Definition batchGetGitInfo (w : World) (dirs : gset string) : gmap string gitInfo :=
  set_to_map (λ d, (d, getGitInfoParallel w d)) dirs.

Definition uniqueCWDs (cwdMap : gmap Z string) : gset string :=
  filter (λ cwd, cwd ≠ EmptyString) (map_img cwdMap).

Definition gitRepoDirs (gitRepoCache : gmap string bool) : gset string :=
  dom (filter (λ kv, kv.2 = true) gitRepoCache).

(** [fmt.Sprintf("%s|%s|%s|%d", ...)]. *)
Definition serverKey (r b c : string) (p : Z) : string :=
  r +:+ "|" +:+ b +:+ "|" +:+ c +:+ "|" +:+ Go.Itoa p.

(** The body of the second loop; the state is [seenServers] and
    [servers]. *)
Definition correlate (cwdMap : gmap Z string) (gitRepoCache : gmap string bool)
    (gitInfoCache : gmap string gitInfo)
    (st : gset string * list Server) (proc : processInfo)
  : gset string * list Server :=
  let '(seenServers, servers) := st in
  match cwdMap !! pid proc with
  | None => st
  | Some cwd =>
      if String.eqb cwd "" then st
      else if negb (default false (gitRepoCache !! cwd)) then st
      else match gitInfoCache !! cwd with
           | None => st
           | Some info =>
               let key := serverKey (repo info) (branch info) (command proc) (port proc) in
               if decide (key ∈ seenServers) then st
               else ({[key]} ∪ seenServers,
                     servers ++ [{| Repo := repo info; Branch := branch info;
                                    Process := command proc; Port := port proc;
                                    PID := 0; CWD := cwd |}])
           end
  end.

(** The comparison handed to [sort.Slice]. *)
Definition serverLess (a b : Server) : bool :=
  if negb (String.eqb (Repo a) (Repo b)) then String.ltb (Repo a) (Repo b)
  else if negb (String.eqb (Branch a) (Branch b)) then String.ltb (Branch a) (Branch b)
  else Port a <? Port b.

(** The list the second loop builds, before it is sorted. *)
Definition correlated (w : World) (output : string) : list Server :=
  let '(processes, pids) := firstPass (Go.ScanLines output) in
  let cwdMap := batchGetProcessCWDs w pids in
  let gitRepoCache := batchCheckGitRepos w (uniqueCWDs cwdMap) in
  let gitInfoCache := batchGetGitInfo w (gitRepoDirs gitRepoCache) in
  (fold_left (correlate cwdMap gitRepoCache gitInfoCache) processes (∅, [])).2.

Definition FindServers `{SortSlice} (w : World) : result (list Server) :=
  match run_lsof_listen w with
  | Err e => Err ("failed to run lsof: " +:+ e)
  | Ok output => Ok (sort_Slice serverLess (correlated w output))
  end.

(** [DetectProjectType]: the first marker file found decides. *)
Definition DetectProjectType (w : World) (dir : string) : ProjectType :=
  if platform.FileExists w (Go.PathJoin [dir; "go.mod"]) ||
     platform.FileExists w (Go.PathJoin [dir; "go.sum"]) then ProjectTypeGo
  else if platform.FileExists w (Go.PathJoin [dir; "Cargo.toml"]) then ProjectTypeRust
  else if platform.FileExists w (Go.PathJoin [dir; "package.json"]) then ProjectTypeNode
  else if platform.FileExists w (Go.PathJoin [dir; "requirements.txt"]) ||
          platform.FileExists w (Go.PathJoin [dir; "pyproject.toml"]) ||
          platform.FileExists w (Go.PathJoin [dir; "setup.py"]) then ProjectTypePython
  else if platform.FileExists w (Go.PathJoin [dir; "Gemfile"]) then ProjectTypeRuby
  else ProjectTypeUnknown.

End detector.

(** ** internal/formatter

    The functions that compute the rows and the colours of the table.  The
    icons are the byte strings of the source, written byte by byte.  A
    [lipgloss.Style] is a value of a type [Style] and [Foreground] sets its
    colour; a [lipgloss.Color] is a string. *)

Module formatter.
Import types detector.

Definition bytes (l : list nat) : string :=
  string_of_list_ascii (ascii_of_nat <$> l).

(** U+E791. *)
Definition iconRuby : string := bytes [238; 158; 145]%nat.
(** U+2B22. *)
Definition iconNode : string := bytes [226; 172; 162]%nat.
(** U+1F40D. *)
Definition iconPython : string := bytes [240; 159; 144; 141]%nat.
(** U+E627. *)
Definition iconGo : string := bytes [238; 152; 167]%nat.
(** U+E738. *)
Definition iconJava : string := bytes [238; 156; 184]%nat.
(** U+1F418. *)
Definition iconPHP : string := bytes [240; 159; 144; 152]%nat.
(** U+E7A8. *)
Definition iconCargo : string := bytes [238; 158; 168]%nat.
(** U+1F35E. *)
Definition iconBun : string := bytes [240; 159; 141; 158]%nat.
(** U+E275. *)
Definition iconElixir : string := bytes [238; 137; 181]%nat.
(** U+1F310. *)
Definition iconDefault : string := bytes [240; 159; 140; 144]%nat.

Definition oneOf (s : string) (names : list string) : bool :=
  existsb (String.eqb s) names.

Definition getProcessIcon (w : World) (process cwd : string) : string :=
  if oneOf process ["ruby"; "rails"; "puma"] then iconRuby
  else if oneOf process ["node"; "npm"; "yarn"] then iconNode
  else if oneOf process ["python"; "gunicorn"; "uvicorn"] then iconPython
  else if oneOf process ["go"] then iconGo
  else if oneOf process ["java"] then iconJava
  else if oneOf process ["php"; "php-fpm"; "apache2"; "httpd"] then iconPHP
  else if oneOf process ["cargo"] then iconCargo
  else if oneOf process ["dotnet"; "kestrel"] then EmptyString
  else if oneOf process ["bun"] then iconBun
  else if oneOf process ["elixir"; "beam.smp"; "mix"] then iconElixir
  else
    let projectType := DetectProjectType w cwd in
    if String.eqb projectType ProjectTypeGo then iconGo
    else if String.eqb projectType ProjectTypeRust then EmptyString
    else if String.eqb projectType ProjectTypeNode then iconNode
    else if String.eqb projectType ProjectTypePython then iconPython
    else if String.eqb projectType ProjectTypeRuby then iconRuby
    else iconDefault.

(** The row of one server. *)
Definition serverRow (w : World) (server : Server) : list string :=
  let icon := getProcessIcon w (Process server) (CWD server) in
  let url := "http://localhost:" +:+ Go.Itoa (Port server) in
  [Repo server; Branch server; icon +:+ " " +:+ Process server; url].

(** [serversToRows]: [rows] is made with one empty row for each server, and
    the loop stores the row of the server of index [i] at index [i]. *)
Definition serversToRows (w : World) (servers : list Server) : list (list string) :=
  (fold_left
     (λ '(i, rows) server, (S i, <[i := serverRow w server]> rows))
     servers (O, replicate (length servers) [])).2.

(** The map [colors] of [getCellStyle]. *)
Definition colors : list (string * string) :=
  [("ruby", "1"); ("node", "2"); ("python", "3"); ("cargo", "1")].

(** [getCellStyle].  The loop over [colors] visits the entries of the map
    in an order the language leaves open; [order] is that order. *)
Definition getCellStyle {Style : Type} (Foreground : Style → string → Style)
    (order : list (string * string)) (w : World)
    (server : Server) (col : Z) (baseStyle : Style) : Style :=
  if col =? 2 then
    let projectType := DetectProjectType w (CWD server) in
    if String.eqb projectType ProjectTypeGo then Foreground baseStyle "6"
    else if String.eqb projectType ProjectTypeRust then Foreground baseStyle "1"
    else if String.eqb projectType ProjectTypeNode then Foreground baseStyle "2"
    else if String.eqb projectType ProjectTypePython then Foreground baseStyle "3"
    else if String.eqb projectType ProjectTypeRuby then Foreground baseStyle "1"
    else
      match List.find (λ '(processType, _), Go.Contains (Process server) processType) order with
      | Some (_, color) => Foreground baseStyle color
      | None => Foreground baseStyle "7"
      end
  else if col =? 3 then Foreground baseStyle "4"
  else baseStyle.

End formatter.

(** ** Implementations of the sorting contract *)

Module SortImpl.

Section Insertion.
Context {A : Type} (less : A → A → bool).

(** The inner loop of insertion sort: the new element moves towards the
    front while it is less than its left neighbour.  [rs] is the sorted
    prefix, last element first. *)
Fixpoint sink (x : A) (rs : list A) : list A :=
  match rs with
  | [] => [x]
  | y :: rs' => if less x y then y :: sink x rs' else x :: rs
  end.

Definition insertionSort (l : list A) : list A :=
  rev (fold_left (λ rs x, sink x rs) l []).

(** One pass that compares and exchanges the elements six places
    apart, from left to right. *)
Definition exchange (l : list A) (i : nat) : list A :=
  match l !! i, l !! (i - 6)%nat with
  | Some x, Some y => if less x y then <[i := y]> (<[(i - 6)%nat := x]> l) else l
  | _, _ => l
  end.

Definition gapPass (l : list A) : list A :=
  fold_left exchange (seq 6 (length l - 6)) l.

(** The pass followed by insertion sort: the way short slices are
    sorted by a quicksort that hands them over to insertion sort. *)
Definition shellInsertionSort (l : list A) : list A :=
  insertionSort (gapPass l).
End Insertion.

End SortImpl.

(** ** The vocabulary of the properties *)

Import types detector.

(** Every byte of [s] satisfies [p]. *)
Fixpoint all_of (p : ascii → bool) (s : string) : bool :=
  match s with
  | EmptyString => true
  | String c r => p c && all_of p r
  end.

(** [s] is empty or starts with a byte that does not satisfy [p]. *)
Definition stops (p : ascii → bool) (s : string) : Prop :=
  match s with
  | EmptyString => True
  | String c _ => p c = false
  end.

(** What [portRegex] says: a colon, one or more digits (the group), one or
    more white-space characters, and the text [(LISTEN)].  [pre] is what
    precedes the match in the line and [post] what follows it. *)
Definition portRegex_matches (line pre digits spaces post : string) : Prop :=
  line = pre +:+ ":" +:+ digits +:+ spaces +:+ "(LISTEN)" +:+ post ∧
  digits ≠ EmptyString ∧ all_of Go.is_digit digits = true ∧
  spaces ≠ EmptyString ∧ all_of is_regex_space spaces = true.

(** The fall-back of [extractPort]: the text after the last colon of the
    ninth field, read as a decimal integer. *)
Definition ninthFieldPort (line : string) : Z :=
  match Go.Fields line !! 8%nat with
  | Some field => default 0 (Go.Atoi (List.last (Go.Split field ":") EmptyString))
  | None => 0
  end.

(** The fall-back as the spec words it, to compare with [ninthFieldPort]:
    the trailing numeric suffix of a field is its longest suffix of decimal
    digits, read as a number; there is none when the field does not end in
    a digit. *)
Definition trailing_numeric_suffix (field : string) : option Z :=
  Go.unsigned_val (String.rev (span Go.is_digit (String.rev field)).1).

(** The four fields that identify an entry. *)
Definition identity (s : Server) : string * string * string * Z :=
  (Repo s, Branch s, Process s, Port s).

(** The identity key of an entry. *)
Definition entryKey (s : Server) : string :=
  serverKey (Repo s) (Branch s) (Process s) (Port s).

(** The entry a record gives rise to when it passes the three checks of the
    second loop: its working directory is known and not empty, the
    directory is inside a repository, and so its context is known. *)
Definition candidate (w : World) (cwdMap : gmap Z string) (proc : processInfo)
  : option Server :=
  match cwdMap !! pid proc with
  | None => None
  | Some cwd =>
      if String.eqb cwd "" then None
      else if git.IsRepo w cwd then
        Some {| Repo := git.GetRepoName w cwd; Branch := git.GetBranch w cwd;
                Process := command proc; Port := port proc; PID := 0; CWD := cwd |}
      else None
  end.

(** The entries of a list whose key was not seen before, in order. *)
Fixpoint firstOfKey (seen : gset string) (l : list Server) : list Server :=
  match l with
  | [] => []
  | e :: r =>
      if decide (entryKey e ∈ seen) then firstOfKey seen r
      else e :: firstOfKey ({[entryKey e]} ∪ seen) r
  end.

(** The working directories the run resolves, and the records it
    correlates. *)
Definition cwdMapOf (w : World) (output : string) : gmap Z string :=
  batchGetProcessCWDs w (firstPass (Go.ScanLines output)).2.

Definition candidatesOf (w : World) (output : string) : list Server :=
  omap (candidate w (cwdMapOf w output)) (omap scanLine (Go.ScanLines output)).

(** The lexicographic order on (repository, branch, port), with the ports
    compared by [R]. *)
Definition lexOrder (R : Z → Z → Prop) (a b : Server) : Prop :=
  String.ltb (Repo a) (Repo b) = true ∨
  (Repo a = Repo b ∧
   (String.ltb (Branch a) (Branch b) = true ∨
    (Branch a = Branch b ∧ R (Port a) (Port b)))).

(** The order of the result in the spec's words: by repository name, then
    by branch name, then by port. *)
Definition tupleLe : Server → Server → Prop := lexOrder Z.le.

(** Two entries are tied when the three fields agree. *)
Definition tied (a b : Server) : Prop :=
  Repo a = Repo b ∧ Branch a = Branch b ∧ Port a = Port b.

Global Instance tied_dec (a b : Server) : Decision (tied a b).
Proof. unfold tied. apply _. Defined.

(** What the loop over the batched answer keeps true: [lines] are the
    lines of the answer, [m] the map and [cur] the value of
    [currentPID]. *)
Definition batchInv (w : World) (lines : list string) (m : gmap Z string) (cur : Z) : Prop :=
  (∀ p d, m !! p = Some d →
     p ≠ 0 ∧
     (∃ line, line ∈ lines ∧ Go.HasPrefix line "p" = true ∧
              Go.Atoi (Go.TrimPrefix line "p") = Some p) ∧
     (∃ line, line ∈ lines ∧ Go.HasPrefix line "p" = false ∧
              Go.HasPrefix line "n" = true ∧
              filepath_Abs w (Go.TrimPrefix line "n") = Ok d)) ∧
  (cur ≠ 0 →
     ∃ line, line ∈ lines ∧ Go.HasPrefix line "p" = true ∧
             Go.Atoi (Go.TrimPrefix line "p") = Some cur).

(** How the loop over the batched answer reads a line: a marker is a
    line that starts with [p] and goes on with a number; a name line is a
    line that starts with [n] and not with [p]; a line that is neither
    changes nothing. *)
Definition markerOf (line : string) : option Z :=
  if Go.HasPrefix line "p" then Go.Atoi (Go.TrimPrefix line "p") else None.

Definition nameLine (line : string) : bool :=
  negb (Go.HasPrefix line "p") && Go.HasPrefix line "n".

Definition quiet (line : string) : Prop :=
  markerOf line = None ∧ nameLine line = false.

(** Among [lines], the directory [d] is paired with the process [p]: a
    marker of [p] is followed by a name line of [d], with only quiet lines
    between the two. *)
Definition pairedIn (w : World) (lines : list string) (p : Z) (d : string) : Prop :=
  ∃ l1 pl mid nl l2,
    lines = l1 ++ pl :: mid ++ nl :: l2 ∧
    markerOf pl = Some p ∧ Forall quiet mid ∧ nameLine nl = true ∧
    filepath_Abs w (Go.TrimPrefix nl "n") = Ok d.

(** [lines] end with a marker of [cur] that no name line has used yet. *)
Definition pendingIn (lines : list string) (cur : Z) : Prop :=
  ∃ l1 pl mid, lines = l1 ++ pl :: mid ∧ markerOf pl = Some cur ∧ Forall quiet mid.

(** What the loop over the batched answer keeps true after the lines
    [lines]: [m] is the map and [cur] the value of [currentPID]. *)
Definition batchTrace (w : World) (lines : list string) (m : gmap Z string) (cur : Z) : Prop :=
  (∀ p d, m !! p = Some d → p ≠ 0 ∧ pairedIn w lines p d) ∧
  (cur ≠ 0 → pendingIn lines cur).


(** A string without a slash. *)
Definition noSlash (s : string) : Prop :=
  all_of (λ c, negb (Ascii.eqb c "/")) s = true.

(** ** A sample machine *)

Module Sample.
Import types detector.

Definition nl : string := String "010" EmptyString.

Definition lsof_header : string :=
  "COMMAND   PID USER   FD   TYPE DEVICE SIZE/OFF NODE NAME".

Definition listener (cmd pid addr : string) : string :=
  cmd +:+ "    " +:+ pid +:+ " me   23u  IPv4 0x1234      0t0  TCP " +:+ addr +:+ " (LISTEN)".

Definition lines (ls : list string) : string := Go.Join (ls ++ [EmptyString]) nl.

(** A machine described by the answers of [lsof] for working
    directories (macOS), the working directory of each process (Linux),
    the directories that hold a [.git] directory, and the answers of
    git. *)
Definition machine (mac : bool) (listing : result string)
    (lsof_cwd : list (string * string)) (cwds : list (Z * string))
    (repos : list string) (urls branches : list (string * string)) : World :=
  {| run_lsof_listen := listing;
     run_lsof_cwd := λ arg,
       match List.find (λ '(a, _), String.eqb arg a) lsof_cwd with
       | Some (_, out) => Ok out
       | None => Err "exit status 1"
       end;
     finder_app_exists := mac;
     Lstat_symlink := λ link,
       if existsb (λ '(p, _), String.eqb link ("/proc/" +:+ Go.Itoa p +:+ "/cwd")) cwds
       then Ok true else Err "no such file or directory";
     Readlink := λ link,
       match List.find (λ '(p, _), String.eqb link ("/proc/" +:+ Go.Itoa p +:+ "/cwd")) cwds with
       | Some (_, d) => Ok d
       | None => Err "no such file or directory"
       end;
     Getwd := Ok "/home/me";
     Stat_IsDir := λ path,
       if existsb (λ '(_, d), String.eqb path d) cwds then Ok true
       else if existsb (λ d, String.eqb path d || String.eqb path (d +:+ "/.git")) repos
       then Ok true
       else Err "no such file or directory";
     git_rev_parse_git_dir := λ _, false;
     git_config_get_remote_origin_url := λ d,
       match List.find (λ '(k, _), String.eqb d k) urls with
       | Some (_, u) => Ok (u +:+ nl)
       | None => Err "exit status 1"
       end;
     git_rev_parse_abbrev_ref_HEAD := λ d,
       match List.find (λ '(k, _), String.eqb d k) branches with
       | Some (_, b) => Ok (b +:+ nl)
       | None => Err "exit status 128"
       end |}.

Definition linux := machine false.

(** The scenario of two listeners, one of them outside any repository. *)
Definition two_listeners_listing : string :=
  lines [lsof_header;
                    listener "node" "100" "127.0.0.1:3001";
                    listener "ruby" "200" "*:3000"].

Definition two_listeners : World :=
  linux (Ok two_listeners_listing)
        []
        [(100, "/repo-a"); (200, "/repo-b")]
        ["/repo-a"]
        [("/repo-a", "git@host:org/repo-a.git")]
        [("/repo-a", "main")].

(** Two clones of one project, on the same branch, each with a server
    on port 3000 of another address. *)
Definition two_clones_listing : string :=
  lines [lsof_header;
                    listener "node" "100" "127.0.0.1:3000";
                    listener "node" "200" "[::1]:3000"].

Definition two_clones : World :=
  linux (Ok two_clones_listing)
        []
        [(100, "/a/app"); (200, "/b/app")]
        ["/a/app"; "/b/app"]
        []
        [("/a/app", "main"); ("/b/app", "main")].

(** A repository whose branch cannot be read. *)
Definition no_branch_listing : string :=
  lines [lsof_header; listener "node" "100" "127.0.0.1:3001"].

Definition no_branch : World :=
  linux (Ok no_branch_listing)
        []
        [(100, "/repo-a")]
        ["/repo-a"]
        [("/repo-a", "git@host:org/repo-a.git")]
        [].

(** Two repositories, without a remote, whose names and branches hold a
    vertical bar: directory [a|b] on branch [c], and directory [a] on
    branch [b|c]. *)
Definition bars_listing : string :=
  lines [lsof_header;
                    listener "node" "100" "127.0.0.1:3000";
                    listener "node" "200" "[::1]:3000"].

Definition bars : World :=
  linux (Ok bars_listing)
        []
        [(100, "/w/a|b"); (200, "/v/a")]
        ["/w/a|b"; "/v/a"]
        []
        [("/w/a|b", "c"); ("/v/a", "b|c")].

(** Seven servers in one repository; the first two on the same port. *)
Definition seven_listeners_listing : string :=
  lines [lsof_header;
                    listener "node" "101" "127.0.0.1:4000";
                    listener "ruby" "102" "[::1]:4000";
                    listener "node" "103" "*:5000";
                    listener "node" "104" "*:5001";
                    listener "node" "105" "*:5002";
                    listener "node" "106" "*:5003";
                    listener "node" "107" "*:3000"].

Definition seven_listeners : World :=
  linux (Ok seven_listeners_listing)
        []
        [(101, "/app"); (102, "/app"); (103, "/app"); (104, "/app");
         (105, "/app"); (106, "/app"); (107, "/app")]
        ["/app"]
        []
        [("/app", "main")].

(** A macOS machine on which the batched query fails, the query for
    process 100 succeeds and the query for process 200 fails. *)
Definition batch_fails : World :=
  machine true
        (Ok (lines [lsof_header;
                    listener "node" "100" "127.0.0.1:3001";
                    listener "ruby" "200" "*:3000"]))
        [("100", lines ["p100"; "fcwd"; "n/repo-a"])]
        []
        ["/repo-a"]
        [("/repo-a", "git@host:org/repo-a.git")]
        [("/repo-a", "main")].

(** A repository whose origin is configured with an empty URL: the
    query succeeds and prints an empty line. *)
Definition empty_url_listing : string :=
  lines [lsof_header; listener "node" "100" "127.0.0.1:3001"].

Definition empty_url : World :=
  linux (Ok empty_url_listing)
        []
        [(100, "/repo")]
        ["/repo"]
        [("/repo", "")]
        [("/repo", "main")].

(** A macOS machine on which the batched query answers for both
    processes. *)
Definition batch_answers : World :=
  machine true
        (Ok two_listeners_listing)
        [("100,200", lines ["p100"; "fcwd"; "n/repo-a"; "p200"; "fcwd"; "n/repo-b"])]
        []
        ["/repo-a"]
        [("/repo-a", "git@host:org/repo-a.git")]
        [("/repo-a", "main")].

(** A machine with some more plain files. *)
Definition with_files (w : World) (files : list string) : World :=
  {| run_lsof_listen := run_lsof_listen w;
     run_lsof_cwd := run_lsof_cwd w;
     finder_app_exists := finder_app_exists w;
     Lstat_symlink := Lstat_symlink w;
     Readlink := Readlink w;
     Getwd := Getwd w;
     Stat_IsDir := λ path,
       if existsb (String.eqb path) files then Ok false else Stat_IsDir w path;
     git_rev_parse_git_dir := git_rev_parse_git_dir w;
     git_config_get_remote_origin_url := git_config_get_remote_origin_url w;
     git_rev_parse_abbrev_ref_HEAD := git_rev_parse_abbrev_ref_HEAD w |}.

(** A Go module with a [package.json] beside it, served by [node]. *)
Definition go_and_node : World :=
  with_files
    (linux (Ok (lines [lsof_header; listener "node" "100" "127.0.0.1:3001"]))
       [] [(100, "/repo-a")] ["/repo-a"] [] [("/repo-a", "main")])
    ["/repo-a/go.mod"; "/repo-a/package.json"].

(** A listing with a line of [n] bytes before the line of a listener. *)
Definition xs (n : N) : string := N.iter n (String "x") EmptyString.



(** Two repositories without a remote: directory [a] on a branch named
    [b|N/A], and directory [a|b], whose branch cannot be read. *)
Definition bars_no_branch_listing : string :=
  lines [lsof_header;
                    listener "node" "100" "127.0.0.1:3000";
                    listener "node" "200" "[::1]:3000"].

Definition bars_no_branch : World :=
  linux (Ok bars_no_branch_listing)
        []
        [(100, "/v/a"); (200, "/w/a|b")]
        ["/v/a"; "/w/a|b"]
        []
        [("/v/a", "b|N/A")].

(** A macOS machine whose batched answer has a second name line after the
    one of process 100. *)
Definition orphan_name_answer : string :=
  lines ["p100"; "fcwd"; "n/repo-a"; "n/orphan"].

Definition orphan_name : World :=
  machine true
        (Ok no_branch_listing)
        [("100", orphan_name_answer)]
        []
        ["/repo-a"]
        [("/repo-a", "git@host:org/repo-a.git")]
        [("/repo-a", "main")].

End Sample.

(** * Properties *)

(** ** The library primitives on small inputs *)

Example Atoi_digits : Go.Atoi "3000" = Some 3000.
Proof. reflexivity. Qed.

Example Atoi_sign : Go.Atoi "-5" = Some (-5) ∧ Go.Atoi "+7" = Some 7 ∧ Go.Atoi "-" = None.
Proof. by vm_compute. Qed.

Example Atoi_syntax : Go.Atoi "x3000" = None ∧ Go.Atoi "" = None ∧ Go.Atoi "12 " = None.
Proof. by vm_compute. Qed.

Example Atoi_overflow :
  Go.Atoi "9223372036854775807" = Some Go.max_int ∧ Go.Atoi "9223372036854775808" = None.
Proof. by vm_compute. Qed.

Example Itoa_values : Go.Itoa 0 = "0" ∧ Go.Itoa 3000 = "3000" ∧ Go.Itoa (-42) = "-42".
Proof. by vm_compute. Qed.

Example Fields_spaces :
  Go.Fields ("  a b" +:+ String "009" "c  ") = ["a"; "b"; "c"] ∧ Go.Fields "   " = [].
Proof. by vm_compute. Qed.

Example Split_colons : Go.Split "a::b" ":" = ["a"; ""; "b"] ∧ Go.Split "" ":" = [""].
Proof. by vm_compute. Qed.

Example Base_values :
  Go.Base "/x/y/" = "y" ∧ Go.Base "///" = "/" ∧ Go.Base "" = "." ∧ Go.Base "repo" = "repo".
Proof. by vm_compute. Qed.

Example Clean_values :
  Go.Clean "/a/b/../c/./d//" = "/a/c/d" ∧ Go.Clean "a/../.." = ".." ∧
  Go.Clean "" = "." ∧ Go.Clean "/.." = "/" ∧ Go.PathJoin ["/x"; ".git"] = "/x/.git".
Proof. by vm_compute. Qed.

Example TrimSpace_values :
  Go.TrimSpace (" a b" +:+ Sample.nl) = "a b" ∧ Go.TrimSpace Sample.nl = "".
Proof. by vm_compute. Qed.

Example ScanLines_values :
  Go.ScanLines ("a" +:+ Sample.nl +:+ "b" +:+ String "013" Sample.nl) = ["a"; "b"] ∧
  Go.ScanLines ("a" +:+ Sample.nl +:+ Sample.nl +:+ "b") = ["a"; ""; "b"] ∧
  Go.ScanLines "" = [].
Proof. by vm_compute. Qed.

(** ** The port classifier *)

Lemma isDevPort_accepts (p : Z) : isDevPort p = true → p = 2000 ∨ 3000 ≤ p.
Proof.
  unfold isDevPort. destruct (p <? 1024); [done|].
  destruct (p >=? 3000) eqn:Hge; [rewrite Z.geb_leb in Hge; lia|].
  destruct (Z.eqb_spec p 2000); [auto | done].
Qed.

(** C3: the classifier accepts a port exactly when it is at least 3000 or
    is 2000, and so rejects exactly the ports below 1024 and the ports from
    1024 up to 2999 other than 2000. *)
Theorem isDevPort_spec (p : Z) :
  (isDevPort p = true ↔ 3000 ≤ p ∨ p = 2000) ∧
  (isDevPort p = false ↔ p < 1024 ∨ (1024 ≤ p < 3000 ∧ p ≠ 2000)).
Proof.
  unfold isDevPort.
  destruct (Z.ltb_spec p 1024); [split; split; [done | lia | lia | done]|].
  destruct (p >=? 3000) eqn:Hge.
  - apply Z.geb_le in Hge. split; split; [lia | done | done | lia].
  - assert (p < 3000) by (rewrite Z.geb_leb in Hge; apply Z.leb_gt in Hge; lia).
    destruct (Z.eqb_spec p 2000); split; split; try done; lia.
Qed.

(** ** The listener enumerator *)

Lemma firstPass_fold (lines : list string) (ps : list processInfo) (ids : list Z) :
  fold_left
    (λ '(processes, pids) line,
       match scanLine line with
       | Some proc => (processes ++ [proc], pids ++ [pid proc])
       | None => (processes, pids)
       end)
    lines (ps, ids)
  = (ps ++ omap scanLine lines, ids ++ (pid <$> omap scanLine lines)).
Proof.
  revert ps ids. induction lines as [|line lines IH]; intros ps ids; simpl.
  - by rewrite !app_nil_r.
  - destruct (scanLine line) as [proc|]; simpl; rewrite IH; [|done].
    by rewrite <- !app_assoc.
Qed.

(** The two slices of the first loop: the records of the lines that yield
    one, in the order of the lines, and their process identifiers. *)
Lemma firstPass_omap (lines : list string) :
  firstPass lines = (omap scanLine lines, pid <$> omap scanLine lines).
Proof. unfold firstPass. by rewrite firstPass_fold. Qed.

Lemma Atoi_range (s : string) (n : Z) :
  Go.Atoi s = Some n → Go.min_int ≤ n ≤ Go.max_int.
Proof.
  assert (Hr : ∀ m, Go.in_int_range m = Some n → Go.min_int ≤ n ≤ Go.max_int).
  { intros m. unfold Go.in_int_range.
    destruct ((Go.min_int <=? m) && (m <=? Go.max_int)) eqn:E; [|done].
    apply andb_true_iff in E as [?%Z.leb_le ?%Z.leb_le]. intros [= <-]. lia. }
  unfold Go.Atoi. intros H.
  repeat case_match; simplify_option_eq; eauto.
Qed.

Lemma extractPort_range (line : string) :
  Go.min_int ≤ extractPort line ≤ Go.max_int.
Proof.
  assert (Hd : ∀ s, Go.min_int ≤ default 0 (Go.Atoi s) ≤ Go.max_int).
  { intros s. destruct (Go.Atoi s) eqn:E; simpl; [by eapply Atoi_range|].
    unfold Go.min_int, Go.max_int. lia. }
  unfold extractPort. repeat case_match; auto; unfold Go.min_int, Go.max_int; lia.
Qed.

Lemma scanLine_Some (line : string) (r : processInfo) :
  scanLine line = Some r →
  1 ≤ pid r ≤ 2147483647 ∧ port r = extractPort line ∧
  (port r = 2000 ∨ 3000 ≤ port r).
Proof.
  unfold scanLine, platform.ValidatePID. intros H.
  repeat case_match; simplify_eq; simpl.
  match goal with H : _ || negb _ = false |- _ =>
    apply orb_false_iff in H as [_ Hdev%negb_false_iff] end.
  apply isDevPort_accepts in Hdev. lia.
Qed.

(** C9, as the code has it: every record of the first loop has a process
    identifier from 1 to 2147483647 and the port that [extractPort] read on
    its line, which is 2000 or at least 3000 and fits the 64-bit [int];
    there is no upper bound of 65535. *)
Theorem listener_record_bounds (lines : list string) (r : processInfo) :
  r ∈ (firstPass lines).1 →
  1 ≤ pid r ≤ 2147483647 ∧
  (port r = 2000 ∨ 3000 ≤ port r) ∧ 1 ≤ port r ≤ Go.max_int ∧
  ∃ line, line ∈ lines ∧ scanLine line = Some r ∧ port r = extractPort line.
Proof.
  rewrite firstPass_omap. simpl. intros (line & Hin & Hscan)%list_elem_of_omap.
  destruct (scanLine_Some _ _ Hscan) as (Hpid & Hport & Hdev).
  pose proof (extractPort_range line) as Hr. rewrite <- Hport in Hr.
  repeat split; try lia; eauto.
Qed.

Lemma listener_record_bounds_witness :
  let r := {| pid := 100; command := "node"; port := 3001 |} in
  1 ≤ pid r ≤ 2147483647 ∧
  (port r = 2000 ∨ 3000 ≤ port r) ∧ 1 ≤ port r ≤ Go.max_int ∧
  ∃ line, line ∈ [Sample.lsof_header; Sample.listener "node" "100" "127.0.0.1:3001"] ∧
          scanLine line = Some r ∧ port r = extractPort line.
Proof.
  apply (listener_record_bounds
           [Sample.lsof_header; Sample.listener "node" "100" "127.0.0.1:3001"]).
  vm_compute. apply list_elem_of_here.
Defined.

(** C9, as stated, fails: a listener line that carries the number 70000
    yields a record, and the classifier accepts it. *)
Lemma listener_record_port_70000 :
  ∃ r, scanLine (Sample.listener "node" "100" "*:70000") = Some r ∧
       r ∈ (firstPass [Sample.listener "node" "100" "*:70000"]).1 ∧
       isDevPort (port r) = true ∧ ¬ (1 ≤ port r ≤ 65535).
Proof.
  exists {| pid := 100; command := "node"; port := 70000 |}.
  split; [by vm_compute|]. split; [vm_compute; apply list_elem_of_here|].
  split; [by vm_compute|]. simpl. lia.
Qed.

(** ** Port extraction *)

Section StringFacts.

Lemma append_cons (c : ascii) (s t : string) :
  String c s +:+ t = String c (s +:+ t).
Proof. reflexivity. Qed.

Lemma append_empty_l (t : string) : EmptyString +:+ t = t.
Proof. reflexivity. Qed.

Lemma HasPrefix_iff (s p : string) :
  Go.HasPrefix s p = true ↔ ∃ t, s = p +:+ t.
Proof.
  unfold Go.HasPrefix. revert s. induction p as [|c p IH]; intros s.
  - split; [|by destruct s]. intros _. by exists s.
  - destruct s as [|c' s]; simpl.
    + split; [done|]. intros [t Ht]. by rewrite append_cons in Ht.
    + destruct (ascii_dec c c') as [->|Hne].
      * rewrite IH. split; intros [t Ht]; exists t.
        -- by rewrite append_cons, Ht.
        -- rewrite append_cons in Ht. congruence.
      * split; [done|]. intros [t Ht]. rewrite append_cons in Ht. congruence.
Qed.

Lemma span_eq (p : ascii → bool) (s a b : string) :
  span p s = (a, b) → s = a +:+ b ∧ all_of p a = true ∧ stops p b.
Proof.
  revert a b. induction s as [|c s IH]; intros a b; simpl.
  - by intros [= <- <-].
  - destruct (p c) eqn:Hc.
    + destruct (span p s) as [a' b'] eqn:Hs. intros [= <- <-].
      destruct (IH _ _ eq_refl) as (-> & Ha & Hb).
      rewrite append_cons. simpl. by rewrite Hc, Ha.
    + intros [= <- <-]. by rewrite append_empty_l.
Qed.

Lemma span_app (p : ascii → bool) (a b : string) :
  all_of p a = true → stops p b → span p (a +:+ b) = (a, b).
Proof.
  intros Ha Hb. induction a as [|c a IH].
  - rewrite append_empty_l. destruct b as [|c b]; simpl in *; [done|]. by rewrite Hb.
  - simpl in Ha. apply andb_true_iff in Ha as [Hc Ha].
    rewrite append_cons. simpl. by rewrite Hc, (IH Ha).
Qed.

End StringFacts.

Lemma match_here_Some (s digits : string) :
  portRegex_match_here s = Some digits ↔
  ∃ spaces post, portRegex_matches s EmptyString digits spaces post.
Proof.
  unfold portRegex_matches. split.
  - unfold portRegex_match_here. destruct s as [|c s]; [done|].
    destruct (ascii_dec c ":") as [->|Hne]; [|by repeat case_match].
    destruct (span Go.is_digit s) as [d r1] eqn:Hd.
    destruct (span is_regex_space r1) as [ws r2] eqn:Hw.
    destruct (String.eqb_spec d ""); [done|].
    destruct (String.eqb_spec ws ""); [done|].
    destruct (Go.HasPrefix r2 "(LISTEN)") eqn:Hp; [|done].
    intros [= <-]. apply HasPrefix_iff in Hp as [post ->].
    apply span_eq in Hd as (-> & Hd & _). apply span_eq in Hw as (-> & Hw & _).
    by exists ws, post.
  - intros (ws & post & -> & Hne & Hd & Hwne & Hw).
    rewrite append_empty_l. change (":" +:+ ?x) with (String ":" x).
    unfold portRegex_match_here.
    rewrite (span_app Go.is_digit digits).
    + rewrite (span_app is_regex_space ws); [| done | done].
      destruct (String.eqb_spec digits ""); [done|].
      destruct (String.eqb_spec ws ""); [done|].
      assert (Go.HasPrefix ("(LISTEN)" +:+ post) "(LISTEN)" = true) as ->; [|done].
      apply HasPrefix_iff. by exists post.
    + done.
    + destruct ws as [|c ws]; [done|]. rewrite append_cons. simpl in *.
      apply andb_true_iff in Hw as [Hc _]. clear -Hc.
      unfold is_regex_space, Go.is_digit in *.
      destruct (Go.byte_of c) as [|q]; [done|].
      repeat (apply orb_true_iff in Hc as [Hc|Hc]); apply N.eqb_eq in Hc as ->; done.
Qed.

Lemma FindStringSubmatch_cons (c : ascii) (s : string) :
  portRegex_FindStringSubmatch (String c s) =
  match portRegex_match_here (String c s) with
  | Some g => Some g
  | None => portRegex_FindStringSubmatch s
  end.
Proof. reflexivity. Qed.

Lemma FindStringSubmatch_skip (pre rest : string) :
  (∀ pre' rest', pre +:+ rest = pre' +:+ rest' →
     (String.length pre' < String.length pre)%nat →
     portRegex_match_here rest' = None) →
  portRegex_FindStringSubmatch (pre +:+ rest) = portRegex_FindStringSubmatch rest.
Proof.
  induction pre as [|c pre IH]; intros Hnone; [done|].
  rewrite append_cons.
  assert (portRegex_match_here (String c (pre +:+ rest)) = None) as Hhere.
  { apply (Hnone EmptyString); [done | simpl; lia]. }
  rewrite FindStringSubmatch_cons, Hhere. apply IH. intros pre' rest' Heq Hlt.
  apply (Hnone (String c pre')); [by rewrite !append_cons, Heq | simpl; lia].
Qed.

Lemma FindStringSubmatch_None (line : string) :
  portRegex_FindStringSubmatch line = None ↔
  ∀ pre rest, line = pre +:+ rest → portRegex_match_here rest = None.
Proof.
  induction line as [|c line IH].
  - split; [|done]. intros _ [|] rest; [|done]. rewrite append_empty_l. by intros <-.
  - rewrite FindStringSubmatch_cons.
    destruct (portRegex_match_here (String c line)) as [g|] eqn:Hhere.
    + split; [done|]. intros H. specialize (H EmptyString _ eq_refl). congruence.
    + rewrite IH. split.
      * intros H [|c' pre] rest; [rewrite append_empty_l; by intros <-|].
        rewrite append_cons. intros [= -> ->]. by eapply H.
      * intros H pre rest ->. by apply (H (String c pre)).
Qed.

Lemma FindStringSubmatch_here (s g : string) :
  portRegex_match_here s = Some g → portRegex_FindStringSubmatch s = Some g.
Proof. intros H. destruct s; [done|]. by rewrite FindStringSubmatch_cons, H. Qed.

Lemma matches_shift (pre rest digits spaces post : string) :
  portRegex_matches rest EmptyString digits spaces post →
  portRegex_matches (pre +:+ rest) pre digits spaces post.
Proof.
  unfold portRegex_matches. rewrite append_empty_l. by intros (-> & ?).
Qed.

Lemma Split_nonempty (s : string) (sep : ascii) : Go.Split s sep ≠ [].
Proof. destruct s as [|c s]; simpl; [done|]. by repeat case_match. Qed.

Lemma extractPort_fallback (line : string) :
  portRegex_FindStringSubmatch line = None → extractPort line = ninthFieldPort line.
Proof.
  unfold extractPort, ninthFieldPort. intros ->.
  destruct (Nat.leb_spec 9 (length (Go.Fields line))) as [Hlen|Hlen].
  - destruct (lookup_lt_is_Some_2 (Go.Fields line) 8) as [f Hf]; [lia|].
    rewrite (list_lookup_total_correct _ _ _ Hf), Hf.
    destruct (Go.Split f ":") eqn:E; [by apply Split_nonempty in E | done].
  - by rewrite lookup_ge_None_2 by lia.
Qed.

(** C8, as the code has it: when the line has a match of the pattern, the
    port is the number in the group of the leftmost match (0 when that
    number does not fit an [int]) and the fields are not consulted; when
    it has none, the port is the text after the last colon of the ninth
    field read as a signed decimal integer, and 0 when there is no ninth
    field or that text is not such an integer. *)
Theorem extractPort_spec (line : string) :
  (∀ pre digits spaces post,
     portRegex_matches line pre digits spaces post →
     (∀ pre' digits' spaces' post',
        portRegex_matches line pre' digits' spaces' post' →
        (String.length pre ≤ String.length pre')%nat) →
     extractPort line = default 0 (Go.Atoi digits)) ∧
  ((∀ pre digits spaces post, ¬ portRegex_matches line pre digits spaces post) →
     extractPort line = ninthFieldPort line).
Proof.
  split.
  - intros pre d ws post Hm Hleft.
    assert (portRegex_FindStringSubmatch line = Some d) as Hfind.
    { pose proof Hm as (Hline & Hrest).
      set (rest := ":" +:+ d +:+ ws +:+ "(LISTEN)" +:+ post) in *.
      assert (portRegex_match_here rest = Some d) as Hhere.
      { apply match_here_Some. exists ws, post. by rewrite Hline in Hm. }
      rewrite Hline, FindStringSubmatch_skip; [by apply FindStringSubmatch_here|].
      intros pre' rest' Heq Hlt.
      destruct (portRegex_match_here rest') as [d'|] eqn:Hhere'; [|done].
      apply match_here_Some in Hhere' as (ws' & post' & Hm').
      apply (matches_shift pre') in Hm'. rewrite <- Heq, <- Hline in Hm'.
      apply Hleft in Hm'. lia. }
    unfold extractPort. by rewrite Hfind.
  - intros Hnone. apply extractPort_fallback, FindStringSubmatch_None.
    intros pre rest ->.
    destruct (portRegex_match_here rest) as [d|] eqn:Hhere; [|done].
    apply match_here_Some in Hhere as (ws & post & Hm).
    by apply (matches_shift pre), Hnone in Hm.
Qed.

(** C8, as stated, fails: the pattern is absent from this line and its
    ninth field ends in the digits 3000, yet the port is 0. *)
Lemma extractPort_not_trailing_suffix :
  let line := "node 100 me 23u IPv4 0x1234 0t0 TCP port3000" in
  portRegex_FindStringSubmatch line = None ∧
  Go.Fields line !! 8%nat = Some "port3000" ∧
  trailing_numeric_suffix "port3000" = Some 3000 ∧
  extractPort line = 0 ∧
  extractPort line ≠ default 0 (trailing_numeric_suffix "port3000").
Proof. by vm_compute. Qed.

Example extractPort_pattern :
  extractPort (Sample.listener "node" "100" "[::1]:3000") = 3000.
Proof. reflexivity. Qed.

Example extractPort_ninth_field :
  extractPort "node 100 me 23u IPv4 0x1234 0t0 TCP 127.0.0.1:8080" = 8080.
Proof. reflexivity. Qed.

Example extractPort_neither :
  extractPort "node 100 me 23u IPv4" = 0.
Proof. reflexivity. Qed.

(** ** The caches *)

Section Caches.
Context (w : World) (cwdMap : gmap Z string).

Let gitRepoCache := batchCheckGitRepos w (uniqueCWDs cwdMap).
Let gitInfoCache := batchGetGitInfo w (gitRepoDirs gitRepoCache).

Lemma uniqueCWDs_elem (d : string) :
  d ∈ uniqueCWDs cwdMap ↔ d ≠ EmptyString ∧ ∃ p, cwdMap !! p = Some d.
Proof. unfold uniqueCWDs. by rewrite elem_of_filter, elem_of_map_img. Qed.

Lemma batchCheckGitRepos_lookup (dirs : gset string) (d : string) (b : bool) :
  batchCheckGitRepos w dirs !! d = Some b ↔ d ∈ dirs ∧ b = git.IsRepo w d.
Proof.
  unfold batchCheckGitRepos. rewrite lookup_set_to_map by (by intros ?? _ _ [=]).
  split; [by intros (y & ? & [= -> ->]) | intros [? ->]; eauto].
Qed.

Lemma batchGetGitInfo_lookup (dirs : gset string) (d : string) (i : gitInfo) :
  batchGetGitInfo w dirs !! d = Some i ↔ d ∈ dirs ∧ i = getGitInfoParallel w d.
Proof.
  unfold batchGetGitInfo. rewrite lookup_set_to_map by (by intros ?? _ _ [=]).
  split; [by intros (y & ? & [= -> ->]) | intros [? ->]; eauto].
Qed.

Lemma gitRepoDirs_elem (cache : gmap string bool) (d : string) :
  d ∈ gitRepoDirs cache ↔ cache !! d = Some true.
Proof.
  unfold gitRepoDirs. rewrite elem_of_dom. unfold is_Some.
  setoid_rewrite map_lookup_filter_Some. simpl.
  split; [by intros (b & ? & ->) | eauto].
Qed.

(** The membership cache answers for a directory what [git.IsRepo]
    answers, for every directory some process works in. *)
Lemma gitRepoCache_lookup (p : Z) (d : string) :
  cwdMap !! p = Some d → d ≠ EmptyString →
  default false (gitRepoCache !! d) = git.IsRepo w d.
Proof.
  intros Hp Hd. subst gitRepoCache.
  assert (batchCheckGitRepos w (uniqueCWDs cwdMap) !! d = Some (git.IsRepo w d)) as ->; [|done].
  apply batchCheckGitRepos_lookup. split; [|done]. apply uniqueCWDs_elem. eauto.
Qed.

(** The context cache holds the name and the branch of every directory
    that passed the membership check, and of no other. *)
Lemma gitInfoCache_lookup (p : Z) (d : string) :
  cwdMap !! p = Some d → d ≠ EmptyString →
  gitInfoCache !! d =
    if git.IsRepo w d then Some (getGitInfoParallel w d) else None.
Proof.
  intros Hp Hd. subst gitInfoCache gitRepoCache.
  destruct (git.IsRepo w d) eqn:Hrepo.
  - apply batchGetGitInfo_lookup. split; [|done].
    apply gitRepoDirs_elem, batchCheckGitRepos_lookup. split; [|done].
    apply uniqueCWDs_elem. eauto.
  - apply eq_None_not_Some. intros [i Hi].
    apply batchGetGitInfo_lookup in Hi as [Hi _].
    apply gitRepoDirs_elem, batchCheckGitRepos_lookup in Hi as [_ Hi]. congruence.
Qed.

End Caches.

(** ** Correlation and deduplication *)

Lemma correlate_candidate (w : World) (cwdMap : gmap Z string)
    (seen : gset string) (servers : list Server) (proc : processInfo) :
  correlate cwdMap (batchCheckGitRepos w (uniqueCWDs cwdMap))
    (batchGetGitInfo w (gitRepoDirs (batchCheckGitRepos w (uniqueCWDs cwdMap))))
    (seen, servers) proc
  = match candidate w cwdMap proc with
    | None => (seen, servers)
    | Some e =>
        if decide (entryKey e ∈ seen) then (seen, servers)
        else ({[entryKey e]} ∪ seen, servers ++ [e])
    end.
Proof.
  unfold correlate, candidate.
  destruct (cwdMap !! pid proc) as [cwd|] eqn:Hcwd; [|done].
  destruct (String.eqb_spec cwd "") as [|Hne]; [done|].
  rewrite (gitRepoCache_lookup w cwdMap _ _ Hcwd Hne).
  rewrite (gitInfoCache_lookup w cwdMap _ _ Hcwd Hne).
  by destruct (git.IsRepo w cwd).
Qed.

Lemma correlate_fold (w : World) (cwdMap : gmap Z string)
    (processes : list processInfo) (seen : gset string) (servers : list Server) :
  (fold_left
     (correlate cwdMap (batchCheckGitRepos w (uniqueCWDs cwdMap))
        (batchGetGitInfo w (gitRepoDirs (batchCheckGitRepos w (uniqueCWDs cwdMap)))))
     processes (seen, servers)).2
  = servers ++ firstOfKey seen (omap (candidate w cwdMap) processes).
Proof.
  revert seen servers. induction processes as [|proc processes IH]; intros seen servers.
  - simpl. by rewrite app_nil_r.
  - cbn [fold_left]. rewrite correlate_candidate. simpl omap.
    destruct (candidate w cwdMap proc) as [e|]; simpl; [|apply IH].
    destruct (decide (entryKey e ∈ seen)); [apply IH|].
    rewrite IH. by rewrite <- app_assoc.
Qed.

(** The second loop emits, in order, the first candidate of each key. *)
Lemma correlated_firstOfKey (w : World) (output : string) :
  correlated w output = firstOfKey ∅ (candidatesOf w output).
Proof.
  unfold correlated, candidatesOf, cwdMapOf.
  rewrite firstPass_omap. simpl. by rewrite correlate_fold.
Qed.

Lemma entryKey_identity (a b : Server) :
  identity a = identity b → entryKey a = entryKey b.
Proof. unfold identity, entryKey. by intros [= -> -> -> ->]. Qed.

Lemma filter_none {A} (P : A → Prop) `{!∀ x, Decision (P x)} (l : list A) :
  (∀ x, x ∈ l → ¬ P x) → filter P l = [].
Proof.
  induction l as [|a l IH]; intros Hl; [done|].
  rewrite filter_cons_False by (apply Hl; constructor).
  apply IH. intros x Hx. apply Hl. by constructor.
Qed.

Lemma filter_ext_in {A} (P Q : A → Prop) `{!∀ x, Decision (P x)} `{!∀ x, Decision (Q x)}
    (l : list A) :
  (∀ x, x ∈ l → P x ↔ Q x) → filter P l = filter Q l.
Proof.
  induction l as [|a l IH]; intros Hl; [done|].
  rewrite !filter_cons, IH by (intros x Hx; apply Hl; by constructor).
  destruct (decide (P a)) as [Hp|Hp], (decide (Q a)) as [Hq|Hq]; try done;
    exfalso; apply (Hl a (list_elem_of_here _ _)) in Hp || apply (Hl a (list_elem_of_here _ _)) in Hq; done.
Qed.

Section FirstOfKey.

Lemma firstOfKey_elem (seen : gset string) (l : list Server) (e : Server) :
  e ∈ firstOfKey seen l → e ∈ l ∧ entryKey e ∉ seen.
Proof.
  revert seen. induction l as [|a l IH]; intros seen; simpl.
  { by intros ?%elem_of_nil. }
  destruct (decide (entryKey a ∈ seen)) as [Hin|Hout].
  - intros [? ?]%IH. split; [by constructor | done].
  - intros [->|[? Hk]%IH]%elem_of_cons; [split; [constructor | done]|].
    split; [by constructor|]. intros Hin. apply Hk, elem_of_union. by right.
Qed.

Lemma firstOfKey_NoDup (seen : gset string) (l : list Server) :
  NoDup (entryKey <$> firstOfKey seen l).
Proof.
  revert seen. induction l as [|a l IH]; intros seen; simpl; [constructor|].
  destruct (decide (entryKey a ∈ seen)); [apply IH|].
  rewrite fmap_cons. constructor; [|apply IH].
  intros (e & Hk & [_ He]%firstOfKey_elem)%list_elem_of_fmap. set_solver.
Qed.

(** Of the entries that share a key, the earliest is emitted and no
    other. *)
Lemma firstOfKey_filter (seen : gset string) (l1 l2 : list Server) (e0 : Server) :
  entryKey e0 ∉ seen →
  (∀ e, e ∈ l1 → entryKey e ≠ entryKey e0) →
  filter (λ s, entryKey s = entryKey e0) (firstOfKey seen (l1 ++ e0 :: l2)) = [e0].
Proof.
  revert seen. induction l1 as [|a l1 IH]; intros seen Hseen Hl1; simpl.
  - rewrite decide_False by done. rewrite filter_cons_True by done. f_equal.
    apply filter_none. intros e [_ He]%firstOfKey_elem. set_solver.
  - assert (entryKey a ≠ entryKey e0) as Ha by (apply Hl1; constructor).
    assert (∀ e, e ∈ l1 → entryKey e ≠ entryKey e0) as Hl1'
      by (intros e He; apply Hl1; by constructor).
    destruct (decide (entryKey a ∈ seen)); [by apply IH|].
    rewrite filter_cons_False by done. apply IH; [|done].
    intros [Hin%elem_of_singleton|Hin]%elem_of_union; [congruence | done].
Qed.

(** Every entry is represented by the earliest entry of its key. *)
Lemma firstOfKey_covers (seen : gset string) (l1 l2 : list Server) (e : Server) :
  entryKey e ∉ seen →
  ∃ s, s ∈ firstOfKey seen (l1 ++ e :: l2) ∧ entryKey s = entryKey e ∧
       (s = e ∨ s ∈ l1).
Proof.
  revert seen. induction l1 as [|a l1 IH]; intros seen Hseen; simpl.
  - rewrite decide_False by done. exists e. split; [constructor | auto].
  - destruct (decide (entryKey a ∈ seen)).
    + destruct (IH seen Hseen) as (s & ? & ? & Hs). exists s.
      split; [done|]. split; [done|]. destruct Hs; [by left | right; by constructor].
    + destruct (decide (entryKey a = entryKey e)) as [Heq|Hne].
      * exists a. split; [constructor|]. split; [done|]. right. constructor.
      * destruct (IH ({[entryKey a]} ∪ seen)) as (s & ? & ? & Hs).
        { intros [Hin%elem_of_singleton|Hin]%elem_of_union; [congruence | done]. }
        exists s. split; [by constructor|]. split; [done|].
        destruct Hs; [by left | right; by constructor].
Qed.

End FirstOfKey.

(** ** The whole pipeline *)

Section Pipeline.
Context `{SortSlice}.

Lemma FindServers_Ok (w : World) (output : string) :
  run_lsof_listen w = Ok output →
  FindServers w = Ok (sort_Slice serverLess (firstOfKey ∅ (candidatesOf w output))).
Proof. unfold FindServers. intros ->. by rewrite correlated_firstOfKey. Qed.

Lemma FindServers_Permutation (w : World) (output : string) (servers : list Server) :
  run_lsof_listen w = Ok output → FindServers w = Ok servers →
  servers ≡ₚ firstOfKey ∅ (candidatesOf w output).
Proof.
  intros Hout. rewrite (FindServers_Ok _ _ Hout). intros [= <-].
  apply sort_Slice_Permutation.
Qed.

(** No two entries of the result have the same key, and so no two have
    the same four identifying fields. *)
Lemma FindServers_NoDup_identity (w : World) (servers : list Server) :
  FindServers w = Ok servers → NoDup (identity <$> servers).
Proof.
  unfold FindServers. destruct (run_lsof_listen w) as [output|] eqn:Hout; [|done].
  intros Hs. pose proof (FindServers_Permutation w output servers Hout) as Hp.
  unfold FindServers in Hp. rewrite Hout in Hp. specialize (Hp Hs).
  assert (NoDup (entryKey <$> servers)) as Hnd.
  { rewrite Hp. apply firstOfKey_NoDup. }
  clear -Hnd. induction servers as [|a l IH]; [constructor|].
  rewrite fmap_cons in *. apply NoDup_cons in Hnd as [Ha Hl].
  constructor; [|by apply IH].
  intros (b & Hab & Hb)%list_elem_of_fmap. apply Ha.
  apply list_elem_of_fmap. exists b. split; [by apply entryKey_identity | done].
Qed.

End Pipeline.

(** ** The order of the result *)

Section StringOrder.

Lemma ltb_irrefl (s : string) : String.ltb s s = false.
Proof.
  unfold String.ltb. pose proof (String.compare_antisym s s) as Ha.
  by destruct (String.compare s s).
Qed.

Lemma ltb_asym (s t : string) : String.ltb s t = true → String.ltb t s = false.
Proof.
  unfold String.ltb. rewrite (String.compare_antisym t s).
  by destruct (String.compare s t).
Qed.

Lemma ltb_leb (s t : string) : String.ltb s t = true → String.leb s t = true.
Proof. unfold String.ltb, String.leb. by destruct (String.compare s t). Qed.

Lemma ltb_total (s t : string) :
  String.ltb s t = true ∨ s = t ∨ String.ltb t s = true.
Proof.
  unfold String.ltb. rewrite (String.compare_antisym t s).
  destruct (String.compare s t) eqn:E; simpl; auto.
  right; left. by apply String.compare_eq_iff.
Qed.

Lemma ltb_trans (s t u : string) :
  String.ltb s t = true → String.ltb t u = true → String.ltb s u = true.
Proof.
  intros Hst Htu.
  assert (String.le s u) as Hle.
  { etrans; apply Is_true_true, ltb_leb; eassumption. }
  destruct (ltb_total s u) as [?|[->|Hus]]; [done| |].
  - apply ltb_asym in Hst. congruence.
  - apply Is_true_true in Hle. unfold String.leb in Hle. unfold String.ltb in Hus.
    rewrite (String.compare_antisym u s) in Hus.
    by destruct (String.compare s u).
Qed.

End StringOrder.

Lemma lexOrder_trans (R : Z → Z → Prop) (a b c : Server) :
  (R (Port a) (Port b) → R (Port b) (Port c) → R (Port a) (Port c)) →
  lexOrder R a b → lexOrder R b c → lexOrder R a c.
Proof.
  unfold lexOrder. intros HR [Hr|[Hr Hab]] [Hr'|[Hr' Hbc]].
  - left. by eapply ltb_trans.
  - left. by rewrite <- Hr'.
  - left. by rewrite Hr.
  - right. split; [by rewrite Hr|].
    destruct Hab as [Hb|[Hb Hp]], Hbc as [Hb'|[Hb' Hp']].
    + left. by eapply ltb_trans.
    + left. by rewrite <- Hb'.
    + left. by rewrite Hb.
    + right. split; [by rewrite Hb | auto].
Qed.

Lemma serverLess_true (a b : Server) : serverLess a b = true ↔ lexOrder Z.lt a b.
Proof.
  unfold serverLess, lexOrder.
  destruct (String.eqb_spec (Repo a) (Repo b)) as [Hr|Hr]; simpl.
  - rewrite Hr, ltb_irrefl.
    destruct (String.eqb_spec (Branch a) (Branch b)) as [Hb|Hb]; simpl.
    + rewrite Hb, ltb_irrefl, Z.ltb_lt.
      split; [by auto 6 | by intros [|[_ [|[_ ?]]]]].
    + split; [by auto | by intros [|[_ [|[? _]]]]].
  - split; [by auto | by intros [|[? _]]].
Qed.

Lemma serverLess_false (a b : Server) : serverLess b a = false ↔ tupleLe a b.
Proof.
  rewrite <- not_true_iff_false, serverLess_true. unfold tupleLe, lexOrder. split.
  - intros Hn.
    destruct (ltb_total (Repo a) (Repo b)) as [?|[Hr|?]]; [by left | | by destruct Hn; left].
    right. split; [done|].
    destruct (ltb_total (Branch a) (Branch b)) as [?|[Hb|?]];
      [by left | | by destruct Hn; right; auto].
    right. split; [done|].
    destruct (Z.le_gt_cases (Port a) (Port b)); [done|].
    destruct Hn. right. split; [done|]. right. split; [done | lia].
  - intros [Hr|[Hr Hab]] [Hr'|[Hr' Hba]].
    + apply ltb_asym in Hr. congruence.
    + rewrite Hr' in Hr. by rewrite ltb_irrefl in Hr.
    + rewrite Hr in Hr'. by rewrite ltb_irrefl in Hr'.
    + destruct Hab as [Hb|[Hb Hp]], Hba as [Hb'|[Hb' Hp']].
      * apply ltb_asym in Hb. congruence.
      * rewrite Hb' in Hb. by rewrite ltb_irrefl in Hb.
      * rewrite Hb in Hb'. by rewrite ltb_irrefl in Hb'.
      * lia.
Qed.

Lemma tupleLe_trans (a b c : Server) : tupleLe a b → tupleLe b c → tupleLe a c.
Proof. apply lexOrder_trans. lia. Qed.

Lemma serverLess_StrictWeakOrder : StrictWeakOrder serverLess.
Proof.
  split.
  - intros x. apply serverLess_false. right. split; [done|]. right. split; [done | lia].
  - intros x y z. rewrite !serverLess_true. apply lexOrder_trans. lia.
  - intros x y z. rewrite !serverLess_false. eauto using tupleLe_trans.
Qed.

(** ** The sorting contract is implementable *)

Section InsertionFacts.
Context {A : Type} (less : A → A → bool).
Import SortImpl.

Lemma sink_Permutation (x : A) (rs : list A) : sink less x rs ≡ₚ x :: rs.
Proof.
  induction rs as [|y rs IH]; simpl; [done|].
  destruct (less x y); [|done]. by rewrite IH, Permutation_swap.
Qed.

Lemma sink_fold_Permutation (l acc : list A) :
  fold_left (λ rs x, sink less x rs) l acc ≡ₚ l ++ acc.
Proof.
  revert acc. induction l as [|x l IH]; intros acc; simpl; [done|].
  by rewrite IH, sink_Permutation, Permutation_middle.
Qed.

Lemma insertionSort_Permutation (l : list A) : insertionSort less l ≡ₚ l.
Proof.
  unfold insertionSort. rewrite <- Permutation_rev, sink_fold_Permutation.
  by rewrite app_nil_r.
Qed.

Lemma exchange_Permutation (l : list A) (i : nat) : exchange less l i ≡ₚ l.
Proof.
  unfold exchange.
  destruct (l !! i) as [x|] eqn:Hi; [|done].
  destruct (l !! (i - 6)%nat) as [y|] eqn:Hj; [|done].
  destruct (less x y); [|done]. by apply Permutation_insert_swap.
Qed.

Lemma gapPass_Permutation (l : list A) : gapPass less l ≡ₚ l.
Proof.
  unfold gapPass. generalize (seq 6 (length l - 6)). intros idx. revert l.
  induction idx as [|i idx IH]; intros l; simpl; [done|].
  by rewrite IH, exchange_Permutation.
Qed.

Lemma shellInsertionSort_Permutation (l : list A) : shellInsertionSort less l ≡ₚ l.
Proof.
  unfold shellInsertionSort. by rewrite insertionSort_Permutation, gapPass_Permutation.
Qed.

Context (Hless : StrictWeakOrder less).

Lemma less_asym (x y : A) : less x y = true → less y x = false.
Proof.
  intros Hxy. destruct (less y x) eqn:Hyx; [|done].
  pose proof (swo_trans _ Hless _ _ _ Hxy Hyx) as Hxx.
  by rewrite (swo_irrefl _ Hless) in Hxx.
Qed.

(** The sorted prefix, last element first: nothing is less than an
    element that comes before it in the slice. *)
Lemma sink_StronglySorted (x : A) (rs : list A) :
  StronglySorted (λ a b, less a b = false) rs →
  StronglySorted (λ a b, less a b = false) (sink less x rs).
Proof.
  induction rs as [|y rs IH]; simpl; intros Hs.
  - repeat constructor.
  - apply StronglySorted_cons in Hs as [Hy Hs].
    destruct (less x y) eqn:Hxy.
    + apply StronglySorted_cons. split; [|by apply IH].
      rewrite sink_Permutation. constructor; [by apply less_asym | done].
    + apply StronglySorted_cons. split; [|by apply StronglySorted_cons].
      constructor; [done|].
      eapply Forall_impl; [exact Hy|]. intros z Hyz. simpl in *.
      by apply (swo_incomp_trans _ Hless z y x).
Qed.

Lemma sink_fold_StronglySorted (l acc : list A) :
  StronglySorted (λ a b, less a b = false) acc →
  StronglySorted (λ a b, less a b = false) (fold_left (λ rs x, sink less x rs) l acc).
Proof.
  revert acc. induction l as [|x l IH]; intros acc Hacc; simpl; [done|].
  by apply IH, sink_StronglySorted.
Qed.

Lemma rev_StronglySorted (l : list A) :
  StronglySorted (λ a b, less a b = false) l →
  StronglySorted (λ a b, less b a = false) (rev l).
Proof.
  induction l as [|x l IH]; simpl; intros Hs; [constructor|].
  apply StronglySorted_cons in Hs as [Hx Hs].
  apply StronglySorted_app_2; [| by apply IH | repeat constructor].
  intros a b Ha Hb. apply list_elem_of_singleton in Hb as ->.
  rewrite Forall_forall in Hx. apply Hx.
  by apply list_elem_of_In, in_rev, list_elem_of_In.
Qed.

Lemma insertionSort_StronglySorted (l : list A) :
  StronglySorted (λ a b, less b a = false) (insertionSort less l).
Proof.
  unfold insertionSort. apply rev_StronglySorted, sink_fold_StronglySorted. constructor.
Qed.

End InsertionFacts.

(** Insertion sort, which keeps equal elements in their order. *)
Definition insertion_SortSlice : SortSlice :=
  {| sort_Slice := @SortImpl.insertionSort;
     sort_Slice_Permutation := @insertionSort_Permutation;
     sort_Slice_StronglySorted := λ A less l Hless,
       insertionSort_StronglySorted less Hless l |}.

(** The exchange pass followed by insertion sort, which does not. *)
Definition shell_SortSlice : SortSlice :=
  {| sort_Slice := @SortImpl.shellInsertionSort;
     sort_Slice_Permutation := @shellInsertionSort_Permutation;
     sort_Slice_StronglySorted := λ A less l Hless,
       insertionSort_StronglySorted less Hless (SortImpl.gapPass less l) |}.

(** ** Properties of the pipeline *)

Lemma candidatesOf_split (w : World) (output : string)
    (ps1 ps2 : list processInfo) (proc : processInfo) (e : Server) :
  omap scanLine (Go.ScanLines output) = ps1 ++ proc :: ps2 →
  candidate w (cwdMapOf w output) proc = Some e →
  candidatesOf w output =
    omap (candidate w (cwdMapOf w output)) ps1 ++
    e :: omap (candidate w (cwdMapOf w output)) ps2.
Proof.
  intros Hps He. unfold candidatesOf. rewrite Hps, omap_app. simpl. by rewrite He.
Qed.

Lemma candidate_fields (w : World) (cwdMap : gmap Z string) (proc : processInfo) (e : Server) :
  candidate w cwdMap proc = Some e →
  cwdMap !! pid proc = Some (CWD e) ∧ CWD e ≠ EmptyString ∧ git.IsRepo w (CWD e) = true ∧
  Repo e = git.GetRepoName w (CWD e) ∧ Branch e = git.GetBranch w (CWD e) ∧
  Process e = command proc ∧ Port e = port proc.
Proof.
  unfold candidate. destruct (cwdMap !! pid proc) as [cwd|]; [|done].
  destruct (String.eqb_spec cwd ""); [done|].
  destruct (git.IsRepo w cwd) eqn:Hrepo; [|done]. by intros [= <-].
Qed.

(** C10: of the surviving records that have the same identity key, the one
    that comes first in the enumerator's output gives the entry: the result
    has exactly one entry of that key, and it is the entry of that record,
    with the working directory resolved for that record. *)
Theorem dedup_keeps_first `{SortSlice} (w : World) (output : string)
    (ps1 ps2 : list processInfo) (proc : processInfo) (e : Server) :
  run_lsof_listen w = Ok output →
  omap scanLine (Go.ScanLines output) = ps1 ++ proc :: ps2 →
  candidate w (cwdMapOf w output) proc = Some e →
  (∀ p e', p ∈ ps1 → candidate w (cwdMapOf w output) p = Some e' →
           entryKey e' ≠ entryKey e) →
  ∃ servers, FindServers w = Ok servers ∧
    filter (λ s, entryKey s = entryKey e) servers = [e] ∧
    cwdMapOf w output !! pid proc = Some (CWD e) ∧
    Process e = command proc ∧ Port e = port proc.
Proof.
  intros Hout Hps He Hfirst. eexists. split; [by apply FindServers_Ok|].
  split; [|by apply candidate_fields in He as (? & _ & _ & _ & _ & ? & ?)].
  apply Permutation_singleton_r.
  rewrite sort_Slice_Permutation, (candidatesOf_split _ _ _ _ _ _ Hps He).
  rewrite firstOfKey_filter; [done | set_solver |].
  intros e' (p & Hp & He')%list_elem_of_omap. eauto.
Qed.

(** When the branch query of a directory inside a repository fails, the
    branch is the label N/A, and a record that works in that directory is
    reported, with the repository name of the directory, the branch N/A,
    and the command and the port of the record, as long as no earlier
    record of another identity has a key that reads the same. *)
Theorem branch_failure_still_emitted `{SortSlice} (w : World) (output : string)
    (ps1 ps2 : list processInfo) (proc : processInfo) (cwd cleanedDir : string) :
  run_lsof_listen w = Ok output →
  omap scanLine (Go.ScanLines output) = ps1 ++ proc :: ps2 →
  cwdMapOf w output !! pid proc = Some cwd →
  git.IsRepo w cwd = true →
  platform.ValidateDir w cwd = Ok cleanedDir →
  is_Err (git_rev_parse_abbrev_ref_HEAD w cleanedDir) = true →
  (∀ p e', p ∈ ps1 → candidate w (cwdMapOf w output) p = Some e' →
     entryKey e' = serverKey (git.GetRepoName w cwd) "N/A" (command proc) (port proc) →
     identity e' = (git.GetRepoName w cwd, "N/A", command proc, port proc)) →
  git.GetBranch w cwd = "N/A" ∧
  ∃ servers s, FindServers w = Ok servers ∧ s ∈ servers ∧
    Repo s = git.GetRepoName w cwd ∧ Branch s = "N/A" ∧
    Process s = command proc ∧ Port s = port proc.
Proof.
  intros Hout Hps Hcwd Hrepo Hdir Hfail Hsame.
  assert (git.GetBranch w cwd = "N/A") as Hbranch.
  { unfold git.GetBranch. rewrite Hdir.
    by destruct (git_rev_parse_abbrev_ref_HEAD w cleanedDir). }
  split; [done|].
  assert (cwd ≠ EmptyString) as Hne.
  { intros ->. unfold platform.ValidateDir in Hdir. done. }
  set (e := {| Repo := git.GetRepoName w cwd; Branch := "N/A";
               Process := command proc; Port := port proc; PID := 0; CWD := cwd |}).
  assert (candidate w (cwdMapOf w output) proc = Some e) as He.
  { unfold candidate. rewrite Hcwd, Hrepo, Hbranch.
    by destruct (String.eqb_spec cwd ""). }
  destruct (firstOfKey_covers ∅ (omap (candidate w (cwdMapOf w output)) ps1)
              (omap (candidate w (cwdMapOf w output)) ps2) e) as (s & Hs & Hk & Hor);
    [set_solver|].
  rewrite <- (candidatesOf_split _ _ _ _ _ _ Hps He) in Hs.
  exists (sort_Slice serverLess (firstOfKey ∅ (candidatesOf w output))), s.
  split; [by apply FindServers_Ok|]. split; [by rewrite sort_Slice_Permutation|].
  destruct Hor as [->|(p & Hp & Hs')%list_elem_of_omap]; [done|].
  specialize (Hsame p s Hp Hs' Hk). by injection Hsame.
Qed.







Lemma StronglySorted_mono {A} (R1 R2 : A → A → Prop) (l : list A) :
  (∀ a b, R1 a b → R2 a b) → StronglySorted R1 l → StronglySorted R2 l.
Proof.
  intros HR. induction 1 as [|a l Hl IH Ha]; constructor; [done|].
  eapply Forall_impl; [exact Ha | apply HR].
Qed.

(** C2, as the code has it: the result is in ascending order of repository
    name, then branch name, then port, and it holds the entries of the
    second loop and no others; this is so whatever the order of the input
    lines.  The order among entries tied on the three fields is left to
    [sort.Slice]. *)
Theorem FindServers_sorted `{SortSlice} (w : World) (output : string) (servers : list Server) :
  run_lsof_listen w = Ok output →
  FindServers w = Ok servers →
  StronglySorted tupleLe servers ∧ servers ≡ₚ correlated w output.
Proof.
  intros Hout. unfold FindServers. rewrite Hout. intros [= <-]. split.
  - eapply StronglySorted_mono; [|apply sort_Slice_StronglySorted, serverLess_StrictWeakOrder].
    intros a b. apply serverLess_false.
  - apply sort_Slice_Permutation.
Qed.

(** ** The working-directory resolver *)

Lemma Clean_nonempty (path : string) : Go.Clean path ≠ EmptyString.
Proof.
  unfold Go.Clean. destruct (Go.IsAbs path); [done|].
  by destruct (Go.Join _ _).
Qed.

(** [filepath.Abs] does not answer with the empty path, as long as
    [os.Getwd] does not. *)
Lemma filepath_Abs_nonempty (w : World) (path cleaned : string) :
  Getwd w ≠ Ok EmptyString → filepath_Abs w path = Ok cleaned → cleaned ≠ EmptyString.
Proof.
  unfold filepath_Abs. intros Hwd.
  destruct (Go.IsAbs path); [intros [= <-]; apply Clean_nonempty|].
  destruct (Getwd w) as [wd|] eqn:Hg; [|done].
  intros [= <-]. simpl.
  destruct (String.eqb_spec wd ""); [congruence | apply Clean_nonempty].
Qed.

Lemma getProcessCWD_nonempty (w : World) (p : Z) (cwd : string) :
  Getwd w ≠ Ok EmptyString → getProcessCWD w p = Ok cwd → cwd ≠ EmptyString.
Proof.
  intros Hwd. unfold getProcessCWD.
  repeat case_match; try done; by apply filepath_Abs_nonempty.
Qed.

(** The map of the fall-back: a process of the list is in it when its own
    query gives a directory that is not empty. *)
Lemma fallbackGetCWDs_fold (w : World) (pids : list Z) (m : gmap Z string) (p : Z) :
  fold_left
    (λ (cwdMap : gmap Z string) q,
       match getProcessCWD w q with
       | Ok cwd => if String.eqb cwd "" then cwdMap else <[q := cwd]> cwdMap
       | Err _ => cwdMap
       end) pids m !! p
  = match getProcessCWD w p with
    | Ok cwd => if bool_decide (p ∈ pids) && negb (String.eqb cwd "")
                then Some cwd else m !! p
    | Err _ => m !! p
    end.
Proof.
  revert m. induction pids as [|q pids IH]; intros m; simpl.
  - by repeat case_match.
  - rewrite IH. destruct (decide (p = q)) as [->|Hne].
    + rewrite (bool_decide_eq_true_2 (q ∈ q :: pids)) by constructor.
      destruct (getProcessCWD w q) as [cwd|]; [|by repeat case_match].
      destruct (String.eqb cwd ""); simpl; [by rewrite andb_false_r|].
      rewrite andb_true_r, lookup_insert_eq. by destruct (bool_decide (q ∈ pids)).
    + assert (bool_decide (p ∈ q :: pids) = bool_decide (p ∈ pids)) as ->.
      { apply bool_decide_ext. rewrite elem_of_cons.
        split; [by intros [?|?] | by right]. }
      assert (∀ m', match getProcessCWD w q with
                    | Ok cwd => if String.eqb cwd "" then m' else <[q := cwd]> m'
                    | Err _ => m'
                    end !! p = m' !! p) as ->; [|done].
      intros m'. destruct (getProcessCWD w q) as [d|]; [|done].
      destruct (String.eqb d ""); [done|]. by rewrite lookup_insert_ne by congruence.
Qed.

Lemma fallbackGetCWDs_lookup (w : World) (pids : list Z) (p : Z) (cwd : string) :
  Getwd w ≠ Ok EmptyString →
  fallbackGetCWDs w pids !! p = Some cwd ↔ p ∈ pids ∧ getProcessCWD w p = Ok cwd.
Proof.
  intros Hwd. unfold fallbackGetCWDs. rewrite fallbackGetCWDs_fold, lookup_empty.
  destruct (getProcessCWD w p) as [d|e] eqn:Hp; [|split; [done | by intros [_ ?]]].
  pose proof (getProcessCWD_nonempty w p d Hwd Hp) as Hd.
  destruct (String.eqb_spec d ""); [done|]. rewrite andb_true_r.
  destruct (bool_decide_reflect (p ∈ pids)).
  - split; [by intros [= ->] | by intros [_ [= ->]]].
  - split; [done | by intros [? _]].
Qed.

Lemma ValidatePID_None (p : Z) : platform.ValidatePID p = None ↔ 1 ≤ p ≤ 2147483647.
Proof.
  unfold platform.ValidatePID.
  destruct (Z.leb_spec p 0); [split; [done | lia]|].
  destruct (p >? 2147483647) eqn:Hgt; [split; [done | lia]|].
  split; [lia | done].
Qed.

(** The query for one process on macOS succeeds exactly when the process
    identifier is from 1 to 2147483647, [lsof] for that one process exits
    with status 0, its output has a line that starts with [n], and the
    rest of the first such line has an absolute form, which is the
    answer. *)
Lemma getProcessCWD_macOS (w : World) (p : Z) (cwd : string) :
  platform.IsMacOS w = true →
  getProcessCWD w p = Ok cwd ↔
  1 ≤ p ≤ 2147483647 ∧
  ∃ output line,
    run_lsof_cwd w (Go.Itoa p) = Ok output ∧
    List.find (λ l, Go.HasPrefix l "n") (Go.ScanLines output) = Some line ∧
    filepath_Abs w (Go.TrimPrefix line "n") = Ok cwd.
Proof.
  intros Hmac. rewrite <- ValidatePID_None. unfold getProcessCWD. rewrite Hmac.
  destruct (platform.ValidatePID p); [split; [done | by intros [? _]]|].
  destruct (run_lsof_cwd w (Go.Itoa p)) as [output|];
    [|split; [done | by intros (_ & ? & ? & ? & _)]].
  destruct (List.find _ (Go.ScanLines output)) as [line|] eqn:Hfind.
  - split.
    + intros Habs. split; [done|]. by exists output, line.
    + intros (_ & ? & ? & [= <-] & Hf & Habs). rewrite Hfind in Hf. by injection Hf as <-.
  - split; [done|]. intros (_ & ? & ? & [= <-] & Hf & _). by rewrite Hfind in Hf.
Qed.

(** C6: on the platform with the batched query, when the batched query
    for the processes fails, the resolver answers with the map of the
    queries made one process at a time.  A process is in the map, with its
    directory, exactly when it is in the list and its own query succeeds:
    its identifier is from 1 to 2147483647, [lsof] for that one process
    exits with status 0 and prints a line that starts with [n], and the
    path of the first such line has an absolute form, the directory of the
    map.  Every other process of the list is left out.  The working
    directory of the program itself is taken not to be the empty path. *)
Theorem batch_failure_falls_back (w : World) (pids : list Z) :
  platform.IsMacOS w = true →
  pids ≠ [] →
  is_Err (run_lsof_cwd w (Go.Join (Go.Itoa <$> pids) ",")) = true →
  Getwd w ≠ Ok EmptyString →
  batchGetProcessCWDs w pids = fallbackGetCWDs w pids ∧
  (∀ p cwd, batchGetProcessCWDs w pids !! p = Some cwd ↔
            p ∈ pids ∧ getProcessCWD w p = Ok cwd) ∧
  (∀ p cwd, batchGetProcessCWDs w pids !! p = Some cwd ↔
            p ∈ pids ∧ 1 ≤ p ≤ 2147483647 ∧
            ∃ output line,
              run_lsof_cwd w (Go.Itoa p) = Ok output ∧
              List.find (λ l, Go.HasPrefix l "n") (Go.ScanLines output) = Some line ∧
              filepath_Abs w (Go.TrimPrefix line "n") = Ok cwd).
Proof.
  intros Hmac Hpids Hfail Hwd.
  assert (batchGetProcessCWDs w pids = fallbackGetCWDs w pids) as ->.
  { unfold batchGetProcessCWDs. destruct pids; [done|]. rewrite Hmac.
    by destruct (run_lsof_cwd w _). }
  split; [done|]. split.
  - intros p cwd. by apply fallbackGetCWDs_lookup.
  - intros p cwd. rewrite fallbackGetCWDs_lookup by done.
    by rewrite getProcessCWD_macOS.
Qed.

Lemma batch_failure_falls_back_witness :
  (batchGetProcessCWDs Sample.batch_fails [100; 200]
     = fallbackGetCWDs Sample.batch_fails [100; 200] ∧
   (∀ p cwd, batchGetProcessCWDs Sample.batch_fails [100; 200] !! p = Some cwd ↔
             p ∈ [100; 200] ∧ getProcessCWD Sample.batch_fails p = Ok cwd) ∧
   (∀ p cwd, batchGetProcessCWDs Sample.batch_fails [100; 200] !! p = Some cwd ↔
             p ∈ [100; 200] ∧ 1 ≤ p ≤ 2147483647 ∧
             ∃ output line,
               run_lsof_cwd Sample.batch_fails (Go.Itoa p) = Ok output ∧
               List.find (λ l, Go.HasPrefix l "n") (Go.ScanLines output) = Some line ∧
               filepath_Abs Sample.batch_fails (Go.TrimPrefix line "n") = Ok cwd)) ∧
  batchGetProcessCWDs Sample.batch_fails [100; 200] !! 100 = Some "/repo-a" ∧
  (∀ cwd, batchGetProcessCWDs Sample.batch_fails [100; 200] !! 200 ≠ Some cwd).
Proof.
  assert (platform.IsMacOS Sample.batch_fails = true) as Hmac by reflexivity.
  assert ([100; 200] ≠ []) as Hpids by discriminate.
  assert (is_Err (run_lsof_cwd Sample.batch_fails (Go.Join (Go.Itoa <$> [100; 200]) ","))
          = true) as Hfail by reflexivity.
  assert (Getwd Sample.batch_fails ≠ Ok EmptyString) as Hwd by discriminate.
  pose proof (batch_failure_falls_back Sample.batch_fails [100; 200] Hmac Hpids Hfail Hwd)
    as Hthm.
  split; [exact Hthm|]. destruct Hthm as (_ & _ & Hmap). split.
  - apply Hmap. split; [apply list_elem_of_here|]. split; [lia|].
    exists (Sample.lines ["p100"; "fcwd"; "n/repo-a"]), "n/repo-a".
    split; [reflexivity|]. split; reflexivity.
  - intros cwd Hin. apply Hmap in Hin as (_ & _ & output & line & Hrun & _).
    discriminate Hrun.
Defined.

Example batch_fails_map :
  batchGetProcessCWDs Sample.batch_fails [100; 200] = {[ 100 := "/repo-a" ]} ∧
  getProcessCWD Sample.batch_fails 100 = Ok "/repo-a" ∧
  is_Err (getProcessCWD Sample.batch_fails 200) = true.
Proof. by vm_compute. Qed.

(** ** Repository names *)

(** What [GetRepoName] computes for a directory that passes
    [ValidateDir]: when the query succeeds and prints at least one byte,
    what follows the last slash of the trimmed output, without a final
    [.git]; otherwise the base name of the directory. *)
Lemma GetRepoName_valid (w : World) (dir cleanedDir : string) :
  platform.ValidateDir w dir = Ok cleanedDir →
  git.GetRepoName w dir =
    match git_config_get_remote_origin_url w cleanedDir with
    | Ok output =>
        if String.eqb output "" then Go.Base cleanedDir
        else Go.TrimSuffix (List.last (Go.Split (Go.TrimSpace output) "/") EmptyString) ".git"
    | Err _ => Go.Base cleanedDir
    end.
Proof.
  unfold git.GetRepoName. intros ->.
  destruct (git_config_get_remote_origin_url w cleanedDir) as [[|c o]|]; [done| |done].
  simpl String.eqb. cbv iota.
  destruct (Go.Split (Go.TrimSpace (String c o)) "/") eqn:E; [|done].
  by apply Split_nonempty in E.
Qed.

(** C7 at an origin whose URL is the empty string: the directory is valid,
    the query succeeds and prints an empty line, so the value is empty and
    the name should be the base name of the directory, [repo]; the name is
    the empty string. *)
Theorem GetRepoName_empty_url :
  platform.ValidateDir Sample.empty_url "/repo" = Ok "/repo" ∧
  git_config_get_remote_origin_url Sample.empty_url "/repo" = Ok Sample.nl ∧
  Go.TrimSpace Sample.nl = EmptyString ∧
  Go.Base "/repo" = "repo" ∧
  git.GetRepoName Sample.empty_url "/repo" = EmptyString.
Proof. by vm_compute. Qed.

Example GetRepoName_remote : git.GetRepoName Sample.two_listeners "/repo-a" = "repo-a".
Proof. reflexivity. Qed.

Example GetRepoName_no_remote : git.GetRepoName Sample.two_clones "/a/app" = "app".
Proof. reflexivity. Qed.

(** ** The identity key *)

(** C1 at two repositories whose names and branches hold a vertical bar:
    the two records pass every check and differ in repository and in
    branch, yet their keys read the same, and the result has the entry of
    the first and no entry for the second. *)
Theorem key_collision_drops_entry `{SortSlice} :
  let e1 := {| Repo := "a|b"; Branch := "c"; Process := "node"; Port := 3000;
               PID := 0; CWD := "/w/a|b" |} in
  let e2 := {| Repo := "a"; Branch := "b|c"; Process := "node"; Port := 3000;
               PID := 0; CWD := "/v/a" |} in
  ∃ output,
    run_lsof_listen Sample.bars = Ok output ∧
    candidatesOf Sample.bars output = [e1; e2] ∧
    identity e1 ≠ identity e2 ∧ entryKey e1 = entryKey e2 ∧
    FindServers Sample.bars = Ok [e1] ∧
    filter (λ s, identity s = identity e2) [e1] = [].
Proof.
  intros e1 e2. eexists. split; [reflexivity|].
  assert (candidatesOf Sample.bars Sample.bars_listing = [e1; e2]) as Hc
    by (by vm_compute).
  split; [exact Hc|]. split; [done|]. split; [by vm_compute|]. split; [|done].
  erewrite FindServers_Ok by reflexivity. f_equal.
  apply Permutation_singleton_r. rewrite sort_Slice_Permutation, Hc. by vm_compute.
Qed.

(** C5 at two repositories without a remote, one in directory [/v/a] on
    the branch [b|N/A] and one in directory [/w/a|b] whose branch query
    fails: the second record passes every check and its branch is the label
    N/A, yet its key reads the same as the key of the first, and the result
    has the entry of the first only: no entry has the branch N/A, and none
    stands for the second record. *)
Theorem branch_failure_dropped_on_key_collision `{SortSlice} :
  let w := Sample.bars_no_branch in
  let e1 := {| Repo := "a"; Branch := "b|N/A"; Process := "node"; Port := 3000;
               PID := 0; CWD := "/v/a" |} in
  let e2 := {| Repo := "a|b"; Branch := "N/A"; Process := "node"; Port := 3000;
               PID := 0; CWD := "/w/a|b" |} in
  run_lsof_listen w = Ok Sample.bars_no_branch_listing ∧
  omap scanLine (Go.ScanLines Sample.bars_no_branch_listing)
    = [ {| pid := 100; command := "node"; port := 3000 |};
        {| pid := 200; command := "node"; port := 3000 |} ] ∧
  cwdMapOf w Sample.bars_no_branch_listing !! 200 = Some "/w/a|b" ∧
  git.IsRepo w "/w/a|b" = true ∧
  platform.ValidateDir w "/w/a|b" = Ok "/w/a|b" ∧
  is_Err (git_rev_parse_abbrev_ref_HEAD w "/w/a|b") = true ∧
  git.GetBranch w "/w/a|b" = "N/A" ∧
  candidatesOf w Sample.bars_no_branch_listing = [e1; e2] ∧
  identity e1 ≠ identity e2 ∧ entryKey e1 = entryKey e2 ∧
  FindServers w = Ok [e1] ∧
  filter (λ s, Branch s = "N/A") [e1] = [] ∧
  filter (λ s, identity s = identity e2) [e1] = [].
Proof.
  intros w e1 e2.
  assert (candidatesOf w Sample.bars_no_branch_listing = [e1; e2]) as Hc
    by (by vm_compute).
  split; [reflexivity|]. split; [by vm_compute|]. split; [by vm_compute|].
  split; [by vm_compute|]. split; [by vm_compute|]. split; [reflexivity|].
  split; [by vm_compute|]. split; [exact Hc|]. split; [done|].
  split; [by vm_compute|]. split; [|done].
  erewrite FindServers_Ok by reflexivity. f_equal.
  apply Permutation_singleton_r. rewrite sort_Slice_Permutation, Hc. by vm_compute.
Qed.

Lemma first_with_key (k : string) (l : list Server) (e : Server) :
  e ∈ l → entryKey e = k →
  ∃ l1 e0 l2, l = l1 ++ e0 :: l2 ∧ entryKey e0 = k ∧ ∀ x, x ∈ l1 → entryKey x ≠ k.
Proof.
  induction l as [|a l IH]; [by intros ?%elem_of_nil|].
  intros Hin Hk. destruct (decide (entryKey a = k)) as [Ha|Ha].
  - exists [], a, l. split; [done|]. split; [done|]. by intros x ?%elem_of_nil.
  - apply elem_of_cons in Hin as [->|Hin]; [done|].
    destruct (IH Hin Hk) as (l1 & e0 & l2 & -> & He0 & Hl1).
    exists (a :: l1), e0, l2. split; [done|]. split; [done|].
    intros x [->|Hx]%elem_of_cons; auto.
Qed.

(** Apart from such keys the deduplication does what C1 says: when the key
    of a surviving record is shared only by surviving records of the same
    four fields, the result has exactly one entry with these fields. *)
Lemma dedup_one_per_identity `{SortSlice} (w : World) (output : string) (e : Server) :
  run_lsof_listen w = Ok output →
  e ∈ candidatesOf w output →
  (∀ e', e' ∈ candidatesOf w output → entryKey e' = entryKey e → identity e' = identity e) →
  ∃ servers s, FindServers w = Ok servers ∧
    filter (λ x, identity x = identity e) servers = [s].
Proof.
  intros Hout Hin Hsame.
  destruct (first_with_key (entryKey e) _ e Hin eq_refl) as (l1 & e0 & l2 & Hl & He0 & Hl1).
  exists (sort_Slice serverLess (firstOfKey ∅ (candidatesOf w output))), e0.
  split; [by apply FindServers_Ok|].
  apply Permutation_singleton_r. rewrite sort_Slice_Permutation.
  rewrite (filter_ext_in _ (λ x, entryKey x = entryKey e0)).
  - rewrite Hl. rewrite firstOfKey_filter; [done | apply not_elem_of_empty |].
    intros x Hx. rewrite He0. by apply Hl1.
  - intros x [Hx _]%firstOfKey_elem. rewrite He0. split.
    + apply entryKey_identity.
    + by apply Hsame.
Qed.

(** ** Witnesses *)

Lemma dedup_keeps_first_witness :
  let e := {| Repo := "app"; Branch := "main"; Process := "node"; Port := 3000;
              PID := 0; CWD := "/a/app" |} in
  ∃ servers, @FindServers insertion_SortSlice Sample.two_clones = Ok servers ∧
    filter (λ s, entryKey s = entryKey e) servers = [e] ∧
    cwdMapOf Sample.two_clones Sample.two_clones_listing !! 100 = Some "/a/app" ∧
    Process e = "node" ∧ Port e = 3000.
Proof.
  apply (@dedup_keeps_first insertion_SortSlice Sample.two_clones
           Sample.two_clones_listing []
           [{| pid := 200; command := "node"; port := 3000 |}]
           {| pid := 100; command := "node"; port := 3000 |}).
  - reflexivity.
  - by vm_compute.
  - by vm_compute.
  - by intros p e' ?%elem_of_nil.
Defined.

Lemma branch_failure_still_emitted_witness :
  git.GetBranch Sample.no_branch "/repo-a" = "N/A" ∧
  ∃ servers s, @FindServers insertion_SortSlice Sample.no_branch = Ok servers ∧
    s ∈ servers ∧
    Repo s = git.GetRepoName Sample.no_branch "/repo-a" ∧ Branch s = "N/A" ∧
    Process s = "node" ∧ Port s = 3001.
Proof.
  apply (@branch_failure_still_emitted insertion_SortSlice Sample.no_branch
           Sample.no_branch_listing [] []
           {| pid := 100; command := "node"; port := 3001 |} "/repo-a" "/repo-a").
  - reflexivity.
  - by vm_compute.
  - by vm_compute.
  - by vm_compute.
  - by vm_compute.
  - reflexivity.
  - by intros p e' ?%elem_of_nil.
Defined.

Lemma FindServers_sorted_witness :
  let servers :=
    [{| Repo := "app"; Branch := "main"; Process := "node"; Port := 3000; PID := 0; CWD := "/app" |};
     {| Repo := "app"; Branch := "main"; Process := "node"; Port := 4000; PID := 0; CWD := "/app" |};
     {| Repo := "app"; Branch := "main"; Process := "ruby"; Port := 4000; PID := 0; CWD := "/app" |};
     {| Repo := "app"; Branch := "main"; Process := "node"; Port := 5000; PID := 0; CWD := "/app" |};
     {| Repo := "app"; Branch := "main"; Process := "node"; Port := 5001; PID := 0; CWD := "/app" |};
     {| Repo := "app"; Branch := "main"; Process := "node"; Port := 5002; PID := 0; CWD := "/app" |};
     {| Repo := "app"; Branch := "main"; Process := "node"; Port := 5003; PID := 0; CWD := "/app" |}] in
  StronglySorted tupleLe servers ∧
  servers ≡ₚ correlated Sample.seven_listeners Sample.seven_listeners_listing.
Proof.
  apply (@FindServers_sorted insertion_SortSlice Sample.seven_listeners
           Sample.seven_listeners_listing).
  - reflexivity.
  - by vm_compute.
Defined.

(** C2, as stated, fails: the loop produces the entry of [node] on port
    4000 before the entry of [ruby] on port 4000, the two are tied on
    repository, branch and port, and an implementation of the sorting
    contract returns them the other way round. *)
Lemma sort_Slice_not_stable :
  let a := {| Repo := "app"; Branch := "main"; Process := "node"; Port := 4000;
              PID := 0; CWD := "/app" |} in
  let b := {| Repo := "app"; Branch := "main"; Process := "ruby"; Port := 4000;
              PID := 0; CWD := "/app" |} in
  ∃ output servers,
    run_lsof_listen Sample.seven_listeners = Ok output ∧
    @FindServers shell_SortSlice Sample.seven_listeners = Ok servers ∧
    tied a b ∧
    filter (tied a) (correlated Sample.seven_listeners output) = [a; b] ∧
    filter (tied a) servers = [b; a].
Proof.
  intros a b. eexists _, _.
  split; [reflexivity|]. split; [by vm_compute|]. by vm_compute.
Qed.

(** * Further properties of the code *)

(** ** Records and fields *)

Lemma rev_app_nonempty (s t : string) : t ≠ EmptyString → String.rev_app s t ≠ EmptyString.
Proof. revert t. induction s as [|c s IH]; intros t Ht; simpl; [done|]. by apply IH. Qed.

Lemma rev_nonempty (s : string) : s ≠ EmptyString → String.rev s ≠ EmptyString.
Proof.
  destruct s as [|c s]; [done|]. intros _. unfold String.rev. simpl.
  by apply rev_app_nonempty.
Qed.

Lemma Fields_go_cons (cur : option string) (skip : nat) (c : ascii) (r : string) :
  Go.Fields_go cur skip (String c r) =
  match skip with
  | S k => Go.Fields_go cur k r
  | O =>
      match Go.space_width (String c r) with
      | O => Go.Fields_go (Some (String c (default EmptyString cur))) O r
      | S k => option_list (String.rev <$> cur) ++ Go.Fields_go None k r
      end
  end.
Proof. reflexivity. Qed.

Lemma Fields_go_nonempty (cur : option string) (skip : nat) (s f : string) :
  (∀ c, cur = Some c → c ≠ EmptyString) →
  f ∈ Go.Fields_go cur skip s → f ≠ EmptyString.
Proof.
  assert (Hcur : ∀ cur' : option string, (∀ c, cur' = Some c → c ≠ EmptyString) →
            f ∈ option_list (String.rev <$> cur') → f ≠ EmptyString).
  { intros [c|] Hc; simpl; [|by intros ?%elem_of_nil].
    intros ->%list_elem_of_singleton. apply rev_nonempty. by apply Hc. }
  revert cur skip. induction s as [|a s IH]; intros cur skip Hc; [by apply Hcur|].
  rewrite Fields_go_cons.
  destruct skip as [|k]; [|by apply IH].
  destruct (Go.space_width (String a s)) as [|k].
  - apply IH. by intros c [= <-].
  - intros [Hf|Hf]%elem_of_app; [by apply (Hcur cur) | by apply (IH None k)].
Qed.

(** Every field of a line has at least one byte. *)
Lemma Fields_nonempty (s f : string) : f ∈ Go.Fields s → f ≠ EmptyString.
Proof. by apply Fields_go_nonempty. Qed.

(** X1: a line gives a record only when it is not the header and has nine
    fields or more; the command of the record is the first field, which is
    not empty, and its process identifier is the second field read as a
    decimal integer. *)
Theorem scanLine_record_fields (line : string) (r : processInfo) :
  scanLine line = Some r →
  Go.HasPrefix line "COMMAND" = false ∧
  (9 ≤ length (Go.Fields line))%nat ∧
  Go.Fields line !! 0%nat = Some (command r) ∧ command r ≠ EmptyString ∧
  ∃ pidStr, Go.Fields line !! 1%nat = Some pidStr ∧ Go.Atoi pidStr = Some (pid r).
Proof.
  unfold scanLine.
  destruct (Go.HasPrefix line "COMMAND"); [done|].
  destruct (Nat.ltb_spec (length (Go.Fields line)) 9) as [|Hlen]; [done|].
  destruct (_ || _); [done|].
  destruct (Go.Atoi (Go.Fields line !!! 1%nat)) as [n|] eqn:Hpid; [|done].
  destruct (platform.ValidatePID n); [done|]. intros [= <-]. simpl.
  assert (Go.Fields line !! 0%nat = Some (Go.Fields line !!! 0%nat)) as H0
    by (apply list_lookup_lookup_total_lt; lia).
  assert (Go.Fields line !! 1%nat = Some (Go.Fields line !!! 1%nat)) as H1
    by (apply list_lookup_lookup_total_lt; lia).
  repeat split; [done | done | | eauto].
  eapply Fields_nonempty, list_elem_of_lookup_2, H0.
Qed.

Lemma scanLine_record_fields_witness :
  let line := Sample.listener "node" "100" "127.0.0.1:3001" in
  let r := {| pid := 100; command := "node"; port := 3001 |} in
  Go.HasPrefix line "COMMAND" = false ∧
  (9 ≤ length (Go.Fields line))%nat ∧
  Go.Fields line !! 0%nat = Some (command r) ∧ command r ≠ EmptyString ∧
  ∃ pidStr, Go.Fields line !! 1%nat = Some pidStr ∧ Go.Atoi pidStr = Some (pid r).
Proof.
  apply (scanLine_record_fields (Sample.listener "node" "100" "127.0.0.1:3001")
           {| pid := 100; command := "node"; port := 3001 |}).
  reflexivity.
Defined.

(** X2: the two slices of the first loop grow together: [pids] holds the
    process identifiers of [processes], in the same order and with the
    same repetitions, and there is at most one record for each line. *)
Theorem firstPass_lockstep (lines : list string) :
  (firstPass lines).2 = pid <$> (firstPass lines).1 ∧
  (length (firstPass lines).1 ≤ length lines)%nat ∧
  ∀ r, r ∈ (firstPass lines).1 ↔ ∃ line, line ∈ lines ∧ scanLine line = Some r.
Proof.
  rewrite firstPass_omap. simpl. split; [done|]. split.
  - induction lines as [|l lines IH]; csimpl; [done|].
    destruct (scanLine l); csimpl; lia.
  - intros r. apply list_elem_of_omap.
Qed.

(** ** What the result holds *)

Lemma scanLine_command_nonempty (line : string) (r : processInfo) :
  scanLine line = Some r → command r ≠ EmptyString.
Proof.
  unfold scanLine. destruct (Go.HasPrefix line "COMMAND"); [done|].
  destruct (Nat.ltb_spec (length (Go.Fields line)) 9) as [|Hlen]; [done|].
  repeat case_match; try done. intros [= <-]. simpl.
  apply (Fields_nonempty line), list_elem_of_lookup_total_2. lia.
Qed.

Lemma FindServers_elem `{SortSlice} (w : World) (output : string) (servers : list Server) (s : Server) :
  run_lsof_listen w = Ok output → FindServers w = Ok servers → s ∈ servers →
  ∃ proc, proc ∈ omap scanLine (Go.ScanLines output) ∧
          candidate w (cwdMapOf w output) proc = Some s.
Proof.
  intros Hout Hs Hin. rewrite (FindServers_Permutation w output servers Hout Hs) in Hin.
  apply firstOfKey_elem in Hin as [Hin _]. by apply list_elem_of_omap in Hin.
Qed.



(** X4: every entry of the result belongs to a repository: its working
    directory is the one resolved for the process of some record, is not
    empty and passes [git.IsRepo], and its repository name and branch are
    those of that directory.  So a directory outside any repository gives
    no entry, however many processes listen from it. *)
Theorem entries_in_repositories `{SortSlice} (w : World) (output : string)
    (servers : list Server) :
  run_lsof_listen w = Ok output → FindServers w = Ok servers →
  (∀ s, s ∈ servers →
     CWD s ≠ EmptyString ∧ git.IsRepo w (CWD s) = true ∧
     Repo s = git.GetRepoName w (CWD s) ∧ Branch s = git.GetBranch w (CWD s) ∧
     ∃ proc, proc ∈ (firstPass (Go.ScanLines output)).1 ∧
             cwdMapOf w output !! pid proc = Some (CWD s)) ∧
  (∀ dir s, git.IsRepo w dir = false → s ∈ servers → CWD s ≠ dir).
Proof.
  intros Hout Hs.
  assert (∀ s, s ∈ servers →
     CWD s ≠ EmptyString ∧ git.IsRepo w (CWD s) = true ∧
     Repo s = git.GetRepoName w (CWD s) ∧ Branch s = git.GetBranch w (CWD s) ∧
     ∃ proc, proc ∈ (firstPass (Go.ScanLines output)).1 ∧
             cwdMapOf w output !! pid proc = Some (CWD s)) as Hall.
  { intros s Hin.
    destruct (FindServers_elem w output servers s Hout Hs Hin) as (proc & Hproc & Hc).
    apply candidate_fields in Hc as (Hcwd & Hne & Hrepo & Hname & Hbranch & _).
    repeat split; try done. exists proc. by rewrite firstPass_omap. }
  split; [done|]. intros dir s Hdir Hin <-.
  destruct (Hall s Hin) as (_ & Hrepo & _). congruence.
Qed.

Lemma entries_in_repositories_witness :
  (∀ s, s ∈ [{| Repo := "repo-a"; Branch := "main"; Process := "node"; Port := 3001;
                PID := 0; CWD := "/repo-a" |}] →
     CWD s ≠ EmptyString ∧ git.IsRepo Sample.two_listeners (CWD s) = true ∧
     Repo s = git.GetRepoName Sample.two_listeners (CWD s) ∧
     Branch s = git.GetBranch Sample.two_listeners (CWD s) ∧
     ∃ proc, proc ∈ (firstPass (Go.ScanLines Sample.two_listeners_listing)).1 ∧
             cwdMapOf Sample.two_listeners Sample.two_listeners_listing !! pid proc
               = Some (CWD s)) ∧
  (∀ dir s, git.IsRepo Sample.two_listeners dir = false →
     s ∈ [{| Repo := "repo-a"; Branch := "main"; Process := "node"; Port := 3001;
             PID := 0; CWD := "/repo-a" |}] → CWD s ≠ dir).
Proof.
  apply (@entries_in_repositories insertion_SortSlice Sample.two_listeners
           Sample.two_listeners_listing).
  - reflexivity.
  - by vm_compute.
Defined.

(** X5: every entry of the result carries the command and the port of a
    record: its process name is not empty, its port is 2000 or at least
    3000, and its PID field is 0, for the second loop never stores the
    process identifier. *)
Theorem entries_fields `{SortSlice} (w : World) (output : string)
    (servers : list Server) (s : Server) :
  run_lsof_listen w = Ok output → FindServers w = Ok servers → s ∈ servers →
  PID s = 0 ∧ Process s ≠ EmptyString ∧ (Port s = 2000 ∨ 3000 ≤ Port s) ∧
  ∃ proc, proc ∈ (firstPass (Go.ScanLines output)).1 ∧
          Process s = command proc ∧ Port s = port proc ∧ 1 ≤ pid proc ≤ 2147483647.
Proof.
  intros Hout Hs Hin.
  destruct (FindServers_elem w output servers s Hout Hs Hin) as (proc & Hproc & Hc).
  assert (PID s = 0) as Hpid.
  { unfold candidate in Hc. repeat case_match; try done. by injection Hc as <-. }
  apply candidate_fields in Hc as (_ & _ & _ & _ & _ & Hcmd & Hport).
  apply list_elem_of_omap in Hproc as (line & Hline & Hscan).
  destruct (scanLine_Some _ _ Hscan) as (Hp & _ & Hdev).
  pose proof (scanLine_command_nonempty _ _ Hscan) as Hne.
  rewrite Hcmd, Hport. repeat split; try done.
  exists proc. rewrite firstPass_omap. simpl. repeat split; try done; try lia.
  apply list_elem_of_omap. eauto.
Qed.

Lemma entries_fields_witness :
  let s := {| Repo := "repo-a"; Branch := "main"; Process := "node"; Port := 3001;
              PID := 0; CWD := "/repo-a" |} in
  PID s = 0 ∧ Process s ≠ EmptyString ∧ (Port s = 2000 ∨ 3000 ≤ Port s) ∧
  ∃ proc, proc ∈ (firstPass (Go.ScanLines Sample.two_listeners_listing)).1 ∧
          Process s = command proc ∧ Port s = port proc ∧ 1 ≤ pid proc ≤ 2147483647.
Proof.
  apply (@entries_fields insertion_SortSlice Sample.two_listeners
           Sample.two_listeners_listing
           [{| Repo := "repo-a"; Branch := "main"; Process := "node"; Port := 3001;
               PID := 0; CWD := "/repo-a" |}]).
  - reflexivity.
  - by vm_compute.
  - apply list_elem_of_here.
Defined.

(** X6: no two entries of the result have the same repository, branch,
    process and port: the entries at two different positions differ in one
    of the four. *)
Theorem FindServers_distinct_identities `{SortSlice} (w : World) (servers : list Server)
    (i j : nat) (a b : Server) :
  FindServers w = Ok servers →
  servers !! i = Some a → servers !! j = Some b →
  i ≠ j → identity a ≠ identity b.
Proof.
  intros Hs Ha Hb Hij Hab. apply Hij.
  pose proof (FindServers_NoDup_identity w servers Hs) as Hnd.
  apply (NoDup_lookup _ i j (identity a) Hnd).
  - by rewrite list_lookup_fmap, Ha.
  - by rewrite list_lookup_fmap, Hb, Hab.
Qed.

Lemma FindServers_distinct_identities_witness :
  let app (c : string) (p : Z) :=
    {| Repo := "app"; Branch := "main"; Process := c; Port := p; PID := 0; CWD := "/app" |} in
  identity (app "node" 4000) ≠ identity (app "ruby" 4000).
Proof.
  intros app.
  apply (@FindServers_distinct_identities insertion_SortSlice Sample.seven_listeners
           [app "node" 3000; app "node" 4000; app "ruby" 4000; app "node" 5000;
            app "node" 5001; app "node" 5002; app "node" 5003]
           1 2 (app "node" 4000) (app "ruby" 4000)).
  - by vm_compute.
  - reflexivity.
  - reflexivity.
  - discriminate.
Defined.

(** ** The comparison of the sort *)

Lemma tupleLe_antisym (a b : Server) : tupleLe a b → tupleLe b a → tied a b.
Proof.
  unfold tupleLe, lexOrder, tied.
  intros [Hr|[Hr Hab]] [Hr'|[Hr' Hba]].
  - apply ltb_asym in Hr. congruence.
  - rewrite Hr' in Hr. by rewrite ltb_irrefl in Hr.
  - rewrite Hr in Hr'. by rewrite ltb_irrefl in Hr'.
  - destruct Hab as [Hb|[Hb Hp]], Hba as [Hb'|[Hb' Hp']].
    + apply ltb_asym in Hb. congruence.
    + rewrite Hb' in Hb. by rewrite ltb_irrefl in Hb.
    + rewrite Hb in Hb'. by rewrite ltb_irrefl in Hb'.
    + repeat split; [done | done | lia].
Qed.

(** X7: the comparison handed to [sort.Slice] is a strict weak order, as
    the sort requires: it is irreflexive, asymmetric and transitive, and
    two entries that it does not order are exactly those with the same
    repository, branch and port; the process and the working directory
    take no part in it. *)
Theorem serverLess_strict_weak_order :
  (∀ a, serverLess a a = false) ∧
  (∀ a b, serverLess a b = true → serverLess b a = false) ∧
  (∀ a b c, serverLess a b = true → serverLess b c = true → serverLess a c = true) ∧
  (∀ a b, serverLess a b = false ∧ serverLess b a = false ↔ tied a b).
Proof.
  pose proof serverLess_StrictWeakOrder as Hswo.
  split; [apply Hswo|]. split; [intros a b; by apply less_asym|].
  split; [apply Hswo|]. intros a b. rewrite !serverLess_false. split.
  - intros [? ?]. by apply tupleLe_antisym.
  - unfold tied, tupleLe, lexOrder. intros (Hr & Hb & Hp).
    split; right; (split; [done|]); right; (split; [done|]); lia.
Qed.

(** ** The working directories *)

Lemma IsAbs_app (s t : string) : Go.IsAbs s = true → Go.IsAbs (s +:+ t) = true.
Proof.
  unfold Go.IsAbs. rewrite !HasPrefix_iff. intros [u ->]. by exists (u +:+ t).
Qed.

Lemma Clean_IsAbs (path : string) : Go.IsAbs path = true → Go.IsAbs (Go.Clean path) = true.
Proof. unfold Go.Clean. intros ->. apply HasPrefix_iff. by eexists. Qed.

(** [filepath.Abs] gives a rooted path, as long as [os.Getwd] does. *)
Lemma filepath_Abs_IsAbs (w : World) (path d : string) :
  (∀ wd, Getwd w = Ok wd → Go.IsAbs wd = true) →
  filepath_Abs w path = Ok d → Go.IsAbs d = true.
Proof.
  intros Hwd. unfold filepath_Abs.
  destruct (Go.IsAbs path) eqn:Hp; [intros [= <-]; by apply Clean_IsAbs|].
  destruct (Getwd w) as [wd|] eqn:Hg; [|done]. intros [= <-].
  specialize (Hwd wd eq_refl). simpl.
  destruct (String.eqb_spec wd "") as [->|_]; [done|].
  apply Clean_IsAbs. simpl. by apply IsAbs_app.
Qed.

Lemma getProcessCWD_Abs (w : World) (p : Z) (d : string) :
  getProcessCWD w p = Ok d →
  platform.ValidatePID p = None ∧ ∃ path, filepath_Abs w path = Ok d.
Proof.
  unfold getProcessCWD. destruct (platform.ValidatePID p); [done|].
  intros Hd. split; [done|]. repeat case_match; try done; eauto.
Qed.

(** X8: a single query for the working directory succeeds only for a
    process identifier from 1 to 2147483647, and its answer is a rooted
    path, hence not the empty one, as long as the working directory of the
    program itself is rooted. *)
Theorem getProcessCWD_Ok (w : World) (p : Z) (d : string) :
  (∀ wd, Getwd w = Ok wd → Go.IsAbs wd = true) →
  getProcessCWD w p = Ok d →
  1 ≤ p ≤ 2147483647 ∧ Go.IsAbs d = true ∧ d ≠ EmptyString.
Proof.
  intros Hwd Hd. apply getProcessCWD_Abs in Hd as (Hp%ValidatePID_None & path & Hd).
  pose proof (filepath_Abs_IsAbs w path d Hwd Hd) as Habs.
  repeat split; try done; try lia. by intros ->.
Qed.

Lemma getProcessCWD_Ok_witness :
  1 ≤ 100 ≤ 2147483647 ∧ Go.IsAbs "/repo-a" = true ∧ "/repo-a" ≠ EmptyString.
Proof.
  apply (getProcessCWD_Ok Sample.batch_fails 100 "/repo-a").
  - by intros wd [= <-].
  - reflexivity.
Defined.

(** On Linux the step of the batched loop stores what the single query
    answers. *)
Lemma procLink_getProcessCWD (w : World) (m : gmap Z string) (p : Z) :
  platform.IsMacOS w = false → platform.ValidatePID p = None →
  procLink w m p = match getProcessCWD w p with
                   | Ok cwd => <[p := cwd]> m
                   | Err _ => m
                   end.
Proof.
  intros Hmac Hp. unfold procLink, getProcessCWD. rewrite Hmac, Hp.
  destruct (Lstat_symlink w _) as [[|]|]; try done.
  destruct (Readlink w _) as [cwd|]; [|done].
  by destruct (filepath_Abs w cwd).
Qed.

Lemma procLink_fold_fallback (w : World) (pids : list Z) (m : gmap Z string) :
  platform.IsMacOS w = false → Getwd w ≠ Ok EmptyString →
  Forall (λ p, 1 ≤ p ≤ 2147483647) pids →
  fold_left (procLink w) pids m =
  fold_left
    (λ (cwdMap : gmap Z string) q,
       match getProcessCWD w q with
       | Ok cwd => if String.eqb cwd "" then cwdMap else <[q := cwd]> cwdMap
       | Err _ => cwdMap
       end) pids m.
Proof.
  intros Hmac Hwd Hpids. revert m.
  induction Hpids as [|p pids Hp _ IH]; intros m; simpl; [done|].
  rewrite procLink_getProcessCWD; [| done | by apply ValidatePID_None].
  destruct (getProcessCWD w p) as [cwd|] eqn:Hc; [|apply IH].
  apply (getProcessCWD_nonempty w p cwd Hwd) in Hc.
  destruct (String.eqb_spec cwd ""); [done | apply IH].
Qed.

(** X9: on Linux the resolver that takes all processes at once and the
    one that asks for them one by one give the same map, for process
    identifiers from 1 to 2147483647; the identifiers the first loop
    collects are such. *)
Theorem linux_batch_is_fallback (w : World) :
  platform.IsMacOS w = false → Getwd w ≠ Ok EmptyString →
  (∀ pids, Forall (λ p, 1 ≤ p ≤ 2147483647) pids →
           batchGetProcessCWDs w pids = fallbackGetCWDs w pids) ∧
  (∀ lines, batchGetProcessCWDs w (firstPass lines).2
            = fallbackGetCWDs w (firstPass lines).2).
Proof.
  intros Hmac Hwd.
  assert (∀ pids, Forall (λ p, 1 ≤ p ≤ 2147483647) pids →
                  batchGetProcessCWDs w pids = fallbackGetCWDs w pids) as Hall.
  { intros pids Hpids. unfold batchGetProcessCWDs, fallbackGetCWDs. rewrite Hmac.
    destruct pids as [|p pids]; [done|]. by apply procLink_fold_fallback. }
  split; [done|]. intros lines. apply Hall.
  rewrite firstPass_omap. simpl. apply Forall_forall.
  intros p (r & -> & Hr)%list_elem_of_fmap.
  apply list_elem_of_omap in Hr as (line & _ & Hscan).
  by apply scanLine_Some in Hscan as (? & _).
Qed.

Lemma linux_batch_is_fallback_witness :
  (∀ pids, Forall (λ p, 1 ≤ p ≤ 2147483647) pids →
           batchGetProcessCWDs Sample.two_listeners pids
           = fallbackGetCWDs Sample.two_listeners pids) ∧
  (∀ lines, batchGetProcessCWDs Sample.two_listeners (firstPass lines).2
            = fallbackGetCWDs Sample.two_listeners (firstPass lines).2).
Proof.
  apply (linux_batch_is_fallback Sample.two_listeners).
  - reflexivity.
  - discriminate.
Defined.

Lemma batchLine_inv (w : World) (lines : list string) (m : gmap Z string) (cur : Z)
    (line : string) :
  line ∈ lines → batchInv w lines m cur →
  batchInv w lines (batchLine w (m, cur) line).1 (batchLine w (m, cur) line).2.
Proof.
  intros Hin [Hm Hcur]. unfold batchLine.
  destruct (Go.HasPrefix line "p") eqn:Hp.
  - destruct (Go.Atoi (Go.TrimPrefix line "p")) as [q|] eqn:Hq; simpl; [|done].
    split; [done|]. intros _. eauto.
  - destruct (Go.HasPrefix line "n") eqn:Hn; simpl; [|done].
    destruct (Z.eqb_spec cur 0) as [->|Hne]; simpl; [done|].
    destruct (filepath_Abs w (Go.TrimPrefix line "n")) as [d|] eqn:Hd; simpl;
      (split; [|done]); [|done].
    intros p d'. destruct (decide (cur = p)) as [<-|Hcp].
    + rewrite lookup_insert_eq. intros [= <-]. split; [done|]. split; [by apply Hcur|].
      eauto 10.
    + rewrite lookup_insert_ne by done. apply Hm.
Qed.

Lemma batchLine_fold_inv (w : World) (lines l : list string) (m : gmap Z string) (cur : Z) :
  (∀ x, x ∈ l → x ∈ lines) → batchInv w lines m cur →
  batchInv w lines (fold_left (batchLine w) l (m, cur)).1
                   (fold_left (batchLine w) l (m, cur)).2.
Proof.
  revert m cur. induction l as [|x l IH]; intros m cur Hl Hinv; [done|].
  cbn [fold_left].
  destruct (batchLine w (m, cur) x) as [m' cur'] eqn:Hstep.
  apply IH; [intros y Hy; apply Hl; by constructor|].
  pose proof (batchLine_inv w lines m cur x (Hl x (list_elem_of_here _ _)) Hinv) as Hx.
  by rewrite Hstep in Hx.
Qed.

Lemma pairedIn_snoc (w : World) (lines : list string) (x : string) (p : Z) (d : string) :
  pairedIn w lines p d → pairedIn w (lines ++ [x]) p d.
Proof.
  intros (l1 & pl & mid & nl & l2 & -> & Hrest).
  exists l1, pl, mid, nl, (l2 ++ [x]). split; [|done].
  rewrite <- app_assoc. simpl. by rewrite <- app_assoc.
Qed.

Lemma pendingIn_snoc (lines : list string) (x : string) (cur : Z) :
  quiet x → pendingIn lines cur → pendingIn (lines ++ [x]) cur.
Proof.
  intros Hx (l1 & pl & mid & -> & Hpl & Hmid).
  exists l1, pl, (mid ++ [x]). split; [by rewrite <- app_assoc|]. split; [done|].
  apply Forall_app. split; [done|]. constructor; [done | constructor].
Qed.

Lemma batchLine_trace (w : World) (lines : list string) (m : gmap Z string) (cur : Z)
    (line : string) :
  batchTrace w lines m cur →
  batchTrace w (lines ++ [line]) (batchLine w (m, cur) line).1 (batchLine w (m, cur) line).2.
Proof.
  intros [Hm Hcur].
  assert (∀ p d, m !! p = Some d → p ≠ 0 ∧ pairedIn w (lines ++ [line]) p d) as Hm'.
  { intros p d [Hp Hpair]%Hm. split; [done|]. by apply pairedIn_snoc. }
  unfold batchLine. destruct (Go.HasPrefix line "p") eqn:Hp.
  - destruct (Go.Atoi (Go.TrimPrefix line "p")) as [q|] eqn:Hq; simpl.
    + split; [done|]. intros _. exists lines, line, [].
      unfold markerOf. by rewrite Hp.
    + split; [done|]. intros Hne. apply pendingIn_snoc; [|by apply Hcur].
      unfold quiet, markerOf, nameLine. by rewrite Hp.
  - destruct (Go.HasPrefix line "n") eqn:Hn; simpl.
    + destruct (Z.eqb_spec cur 0) as [->|Hne]; simpl; [done|].
      destruct (filepath_Abs w (Go.TrimPrefix line "n")) as [d|] eqn:Hd; simpl;
        (split; [|done]); [|done].
      intros p d'. destruct (decide (cur = p)) as [<-|Hcp].
      * rewrite lookup_insert_eq. intros [= <-]. split; [done|].
        destruct (Hcur Hne) as (l1 & pl & mid & -> & Hpl & Hmid).
        exists l1, pl, mid, line, []. split; [by rewrite <- app_assoc|].
        unfold nameLine. by rewrite Hp, Hn.
      * rewrite lookup_insert_ne by done. apply Hm'.
    + split; [done|]. intros Hne. apply pendingIn_snoc; [|by apply Hcur].
      unfold quiet, markerOf, nameLine. by rewrite Hp, Hn.
Qed.

Lemma batchLine_fold_trace (w : World) (l lines : list string) (m : gmap Z string) (cur : Z) :
  batchTrace w lines m cur →
  batchTrace w (lines ++ l) (fold_left (batchLine w) l (m, cur)).1
                            (fold_left (batchLine w) l (m, cur)).2.
Proof.
  revert lines m cur. induction l as [|x l IH]; intros lines m cur Hinv;
    [by rewrite app_nil_r|].
  cbn [fold_left].
  destruct (batchLine w (m, cur) x) as [m' cur'] eqn:Hstep.
  replace (lines ++ x :: l) with ((lines ++ [x]) ++ l) by (by rewrite <- app_assoc).
  apply IH. pose proof (batchLine_trace w lines m cur x Hinv) as Hx.
  by rewrite Hstep in Hx.
Qed.

(** The three kinds of line in the loop. *)
Lemma batchLine_marker (w : World) (m : gmap Z string) (cur : Z) (line : string) (p : Z) :
  markerOf line = Some p → batchLine w (m, cur) line = (m, p).
Proof.
  unfold markerOf, batchLine. destruct (Go.HasPrefix line "p"); [|done]. by intros ->.
Qed.

Lemma batchLine_quiet (w : World) (m : gmap Z string) (cur : Z) (line : string) :
  quiet line → batchLine w (m, cur) line = (m, cur).
Proof.
  unfold quiet, markerOf, nameLine, batchLine. intros [Hmk Hn].
  destruct (Go.HasPrefix line "p"); [by rewrite Hmk|].
  simpl in Hn. by rewrite Hn.
Qed.

Lemma batchLine_name (w : World) (m : gmap Z string) (cur : Z) (line : string) :
  nameLine line = true →
  batchLine w (m, cur) line =
    if cur =? 0 then (m, cur)
    else match filepath_Abs w (Go.TrimPrefix line "n") with
         | Ok cleaned => (<[cur := cleaned]> m, 0)
         | Err _ => (m, 0)
         end.
Proof.
  unfold nameLine, batchLine.
  destruct (Go.HasPrefix line "p"); [done|]. simpl. intros ->. simpl.
  by destruct (cur =? 0).
Qed.

Lemma batchLine_fold_quiet (w : World) (l : list string) (m : gmap Z string) (cur : Z) :
  Forall quiet l → fold_left (batchLine w) l (m, cur) = (m, cur).
Proof.
  induction 1 as [|x l Hx _ IH]; [done|]. cbn [fold_left]. by rewrite batchLine_quiet.
Qed.

(** The entry of a process is left alone as long as no marker of the
    process is read. *)
Lemma batchLine_fold_keeps (w : World) (l : list string) (m : gmap Z string) (cur p : Z) :
  p ≠ 0 → cur ≠ p → (∀ x, x ∈ l → markerOf x ≠ Some p) →
  (fold_left (batchLine w) l (m, cur)).1 !! p = m !! p.
Proof.
  intros Hp. revert m cur. induction l as [|x l IH]; intros m cur Hcur Hl; [done|].
  cbn [fold_left].
  assert (markerOf x ≠ Some p) as Hx by (apply Hl; constructor).
  assert (∀ y, y ∈ l → markerOf y ≠ Some p) as Hl'
    by (intros y Hy; apply Hl; by constructor).
  destruct (markerOf x) as [q|] eqn:Hmk.
  - rewrite (batchLine_marker w m cur x q Hmk). apply IH; [congruence | done].
  - destruct (nameLine x) eqn:Hn.
    + rewrite (batchLine_name w m cur x Hn).
      destruct (Z.eqb_spec cur 0); [by apply IH|].
      destruct (filepath_Abs w (Go.TrimPrefix x "n")) as [d|].
      * rewrite IH by done. by rewrite lookup_insert_ne.
      * by apply IH.
    + rewrite batchLine_quiet by done. by apply IH.
Qed.

(** X10: how the batched answer is read, when the batched query succeeds.
    Every entry of the map pairs a process with a directory of the lines
    that the scanner delivers: the key is not 0 and is the number of a marker line [p...],
    the directory is the absolute form of the path of a name line [n...]
    after it, and between the two there is no other marker and no other
    name line; so a name line is given to the last marker before it, which
    it uses up, and a name line with no unused marker before it adds
    nothing.  Conversely such a pair of lines puts the process in the map
    with that directory, unless a marker with the same number comes
    later. *)
Theorem batch_answer_entries (w : World) (pids : list Z) (output : string) :
  platform.IsMacOS w = true →
  run_lsof_cwd w (Go.Join (Go.Itoa <$> pids) ",") = Ok output →
  (∀ p d, batchGetProcessCWDs w pids !! p = Some d →
          p ≠ 0 ∧ pairedIn w (Go.ScanLines output) p d) ∧
  (pids ≠ [] →
   ∀ l1 pl mid nl l2 p d,
     Go.ScanLines output = l1 ++ pl :: mid ++ nl :: l2 →
     markerOf pl = Some p → p ≠ 0 → Forall quiet mid → nameLine nl = true →
     filepath_Abs w (Go.TrimPrefix nl "n") = Ok d →
     (∀ x, x ∈ l2 → markerOf x ≠ Some p) →
     batchGetProcessCWDs w pids !! p = Some d).
Proof.
  intros Hmac Hout. unfold batchGetProcessCWDs. split.
  - intros p d. destruct pids as [|q pids]; [by rewrite lookup_empty|].
    rewrite Hmac, Hout.
    destruct (batchLine_fold_trace w (Go.ScanLines output) [] ∅ 0) as [Hm _];
      [split; [by intros ?? ?%lookup_empty_Some | done]|].
    apply Hm.
  - intros Hpids l1 pl mid nl l2 p d Hlines Hpl Hp Hmid Hnl Hd Hl2.
    destruct pids as [|q pids]; [done|]. rewrite Hmac, Hout, Hlines.
    rewrite fold_left_app.
    destruct (fold_left (batchLine w) l1 (∅, 0)) as [m1 c1].
    cbn [fold_left]. rewrite (batchLine_marker w m1 c1 pl p Hpl).
    rewrite fold_left_app, batchLine_fold_quiet by done.
    cbn [fold_left]. rewrite (batchLine_name w m1 p nl Hnl), Hd.
    destruct (Z.eqb_spec p 0); [done|].
    rewrite batchLine_fold_keeps by done. apply lookup_insert_eq.
Qed.

Lemma batch_answer_entries_witness :
  ((∀ p d, batchGetProcessCWDs Sample.orphan_name [100] !! p = Some d →
           p ≠ 0 ∧ pairedIn Sample.orphan_name (Go.ScanLines Sample.orphan_name_answer) p d) ∧
   ([100] ≠ [] →
    ∀ l1 pl mid nl l2 p d,
      Go.ScanLines Sample.orphan_name_answer = l1 ++ pl :: mid ++ nl :: l2 →
      markerOf pl = Some p → p ≠ 0 → Forall quiet mid → nameLine nl = true →
      filepath_Abs Sample.orphan_name (Go.TrimPrefix nl "n") = Ok d →
      (∀ x, x ∈ l2 → markerOf x ≠ Some p) →
      batchGetProcessCWDs Sample.orphan_name [100] !! p = Some d)) ∧
  batchGetProcessCWDs Sample.orphan_name [100] !! 100 = Some "/repo-a".
Proof.
  pose proof (batch_answer_entries Sample.orphan_name [100] Sample.orphan_name_answer
                eq_refl eq_refl) as Hthm.
  split; [exact Hthm|]. destruct Hthm as [_ Hto].
  apply (Hto ltac:(discriminate) [] "p100" ["fcwd"] "n/repo-a" ["n/orphan"]).
  - by vm_compute.
  - reflexivity.
  - discriminate.
  - by repeat constructor.
  - reflexivity.
  - reflexivity.
  - intros x ->%list_elem_of_singleton. discriminate.
Defined.

(** On the answer with a second name line the map has the directory of
    the first and nothing of the second. *)
Example orphan_name_line_adds_nothing :
  batchGetProcessCWDs Sample.orphan_name [100] = {[ 100 := "/repo-a" ]}.
Proof. by vm_compute. Qed.

Lemma procLink_fold_values (w : World) (Q : string → Prop) (pids : list Z)
    (m : gmap Z string) :
  (∀ path d, filepath_Abs w path = Ok d → Q d) →
  (∀ p d, m !! p = Some d → Q d) →
  ∀ p d, fold_left (procLink w) pids m !! p = Some d → Q d.
Proof.
  intros HQ. revert m. induction pids as [|q pids IH]; intros m Hm; [done|].
  cbn [fold_left]. apply IH. intros p d. unfold procLink.
  destruct (Lstat_symlink w _) as [[|]|]; try apply Hm.
  destruct (Readlink w _) as [cwd|]; [|apply Hm].
  destruct (filepath_Abs w cwd) as [cleaned|] eqn:Habs; [|apply Hm].
  destruct (decide (q = p)) as [->|Hne].
  - rewrite lookup_insert_eq. intros [= <-]. by eapply HQ.
  - rewrite lookup_insert_ne by done. apply Hm.
Qed.

(** Every directory the resolver stores is an answer of [filepath.Abs]. *)
Lemma batchGetProcessCWDs_values (w : World) (Q : string → Prop) (pids : list Z)
    (p : Z) (d : string) :
  (∀ path d, filepath_Abs w path = Ok d → Q d) →
  batchGetProcessCWDs w pids !! p = Some d → Q d.
Proof.
  intros HQ. unfold batchGetProcessCWDs.
  destruct pids as [|q pids]; [by rewrite lookup_empty|].
  destruct (platform.IsMacOS w).
  - destruct (run_lsof_cwd w _) as [output|].
    + destruct (batchLine_fold_inv w (Go.ScanLines output) (Go.ScanLines output) ∅ 0)
        as [Hm _]; [done | split; [by intros ?? ?%lookup_empty_Some | done] |].
      intros (_ & _ & line & _ & _ & _ & Habs)%Hm. by eapply HQ.
    + unfold fallbackGetCWDs. rewrite fallbackGetCWDs_fold, lookup_empty.
      destruct (getProcessCWD w p) as [cwd|] eqn:Hp; [|done].
      destruct (_ && _); [|done]. intros [= <-].
      apply getProcessCWD_Abs in Hp as (_ & path & Habs). by eapply HQ.
  - apply procLink_fold_values; [done | by intros ?? ?%lookup_empty_Some].
Qed.

(** X11: whichever way the working directories are resolved (batched
    answer, one query for each process, or the links under /proc), each
    directory in the map is a rooted path, and so is the working directory
    of every entry of the result, as long as the working directory of the
    program itself is rooted. *)
Theorem resolved_dirs_absolute `{SortSlice} (w : World) :
  (∀ wd, Getwd w = Ok wd → Go.IsAbs wd = true) →
  (∀ pids p d, batchGetProcessCWDs w pids !! p = Some d → Go.IsAbs d = true) ∧
  (∀ servers s, FindServers w = Ok servers → s ∈ servers → Go.IsAbs (CWD s) = true).
Proof.
  intros Hwd.
  assert (∀ pids p d, batchGetProcessCWDs w pids !! p = Some d → Go.IsAbs d = true) as Hmap.
  { intros pids p d. apply (batchGetProcessCWDs_values w (λ x, Go.IsAbs x = true)).
    intros path d'. by apply filepath_Abs_IsAbs. }
  split; [done|]. intros servers s Hs Hin.
  destruct (run_lsof_listen w) as [output|] eqn:Hout;
    [|unfold FindServers in Hs; by rewrite Hout in Hs].
  destruct (FindServers_elem w output servers s Hout Hs Hin) as (proc & _ & Hc).
  apply candidate_fields in Hc as (Hcwd & _). by eapply Hmap.
Qed.

Lemma resolved_dirs_absolute_witness :
  (∀ pids p d, batchGetProcessCWDs Sample.batch_answers pids !! p = Some d →
               Go.IsAbs d = true) ∧
  (∀ servers s, @FindServers insertion_SortSlice Sample.batch_answers = Ok servers →
                s ∈ servers → Go.IsAbs (CWD s) = true).
Proof.
  apply (@resolved_dirs_absolute insertion_SortSlice Sample.batch_answers).
  by intros wd [= <-].
Defined.

(** ** Repositories *)

Lemma ValidateDir_Ok (w : World) (dir cleaned : string) :
  platform.ValidateDir w dir = Ok cleaned ↔
  dir ≠ EmptyString ∧ filepath_Abs w dir = Ok cleaned ∧ Stat_IsDir w cleaned = Ok true.
Proof.
  unfold platform.ValidateDir.
  destruct (String.eqb_spec dir "") as [->|Hne]; [split; [done | by intros [? _]]|].
  destruct (filepath_Abs w dir) as [c|]; [|split; [done | by intros (_ & ? & _)]].
  destruct (Stat_IsDir w c) as [[|]|] eqn:Hst.
  - split; [by intros [= <-] | by intros (_ & [= <-] & _)].
  - split; [done | intros (_ & [= <-] & ?); congruence].
  - split; [done | intros (_ & [= <-] & ?); congruence].
Qed.

(** X12: a path is inside a repository for [IsRepo] exactly when it is
    not empty, has an absolute form that is an existing directory, and
    that directory holds a [.git] directory or answers the query of git;
    an empty, missing or non-directory path is never an error, only
    [false]. *)
Theorem IsRepo_true_iff (w : World) (dir : string) :
  git.IsRepo w dir = true ↔
  dir ≠ EmptyString ∧
  ∃ cleaned, filepath_Abs w dir = Ok cleaned ∧ Stat_IsDir w cleaned = Ok true ∧
    (Stat_IsDir w (Go.PathJoin [cleaned; ".git"]) = Ok true ∨
     git_rev_parse_git_dir w cleaned = true).
Proof.
  unfold git.IsRepo.
  destruct (platform.ValidateDir w dir) as [cleaned|e] eqn:Hv.
  - apply ValidateDir_Ok in Hv as (Hne & Habs & Hdir). split.
    + intros Hr. split; [done|]. exists cleaned. repeat split; try done.
      destruct (Stat_IsDir w (Go.PathJoin [cleaned; ".git"])) as [[|]|]; auto.
    + intros (_ & c & Hc & _ & Hor). rewrite Habs in Hc. injection Hc as <-.
      destruct Hor as [-> | Hg]; [done|].
      by destruct (Stat_IsDir w (Go.PathJoin [cleaned; ".git"])) as [[|]|].
  - split; [done|]. intros (Hne & c & Habs & Hdir & _).
    assert (platform.ValidateDir w dir = Ok c) as Hv' by (by apply ValidateDir_Ok).
    congruence.
Qed.

(** X13: on a path that fails the validation (empty, without absolute
    form, missing, or not a directory) the three functions of the package
    answer without an error: not a repository, the branch N/A, and the base
    name of the path as it was given. *)
Theorem git_invalid_dir (w : World) (dir : string) :
  is_Err (platform.ValidateDir w dir) = true →
  git.IsRepo w dir = false ∧ git.GetBranch w dir = "N/A" ∧
  git.GetRepoName w dir = Go.Base dir.
Proof.
  unfold git.IsRepo, git.GetBranch, git.GetRepoName.
  by destruct (platform.ValidateDir w dir).
Qed.

Lemma git_invalid_dir_witness :
  git.IsRepo Sample.two_listeners "/nowhere/x" = false ∧
  git.GetBranch Sample.two_listeners "/nowhere/x" = "N/A" ∧
  git.GetRepoName Sample.two_listeners "/nowhere/x" = Go.Base "/nowhere/x".
Proof.
  apply (git_invalid_dir Sample.two_listeners "/nowhere/x"). reflexivity.
Defined.

Lemma Split_all_of (s : string) (sep : ascii) (x : string) :
  x ∈ Go.Split s sep → all_of (λ c, negb (Ascii.eqb c sep)) x = true.
Proof.
  revert x. induction s as [|c s IH]; intros x; simpl.
  - by intros ->%list_elem_of_singleton.
  - destruct (Ascii.eqb_spec c sep) as [->|Hne].
    + intros [->|Hx]%elem_of_cons; [done | by apply IH].
    + destruct (Go.Split s sep) as [|y ys] eqn:E.
      * intros ->%list_elem_of_singleton. simpl.
        by destruct (Ascii.eqb_spec c sep).
      * intros [->|Hx]%elem_of_cons.
        -- simpl. destruct (Ascii.eqb_spec c sep); [done|]. simpl.
           apply IH. constructor.
        -- apply IH. by constructor.
Qed.

Lemma last_elem {A} (l : list A) (d : A) : l ≠ [] → List.last l d ∈ l.
Proof.
  induction l as [|a l IH]; [done|]. intros _.
  destruct l as [|b l]; [constructor|].
  change (List.last (a :: b :: l) d) with (List.last (b :: l) d).
  constructor. by apply IH.
Qed.

Lemma take_all_of (p : ascii → bool) (n : nat) (s : string) :
  all_of p s = true → all_of p (Go.take n s) = true.
Proof.
  revert s. induction n as [|n IH]; intros [|c s]; simpl; try done.
  intros [-> Hs]%andb_true_iff. by apply IH.
Qed.

Lemma Base_noSlash (path : string) : Go.Base path = "/" ∨ noSlash (Go.Base path).
Proof.
  unfold Go.Base. destruct path as [|c path]; [by right|].
  destruct (Go.strip_trailing_slashes (String c path)) as [|c' p']; [by left|].
  right. apply (Split_all_of (String c' p') "/"), last_elem, Split_nonempty.
Qed.

(** X14: the name of a repository is a single path element: it holds no
    slash, unless it is the name [/] of the root directory.  When it comes
    from the remote URL it is what follows the last slash of the URL. *)
Theorem GetRepoName_no_slash (w : World) (dir : string) :
  git.GetRepoName w dir = "/" ∨ noSlash (git.GetRepoName w dir).
Proof.
  unfold git.GetRepoName.
  destruct (platform.ValidateDir w dir) as [cleaned|]; [|apply Base_noSlash].
  destruct (git_config_get_remote_origin_url w cleaned) as [[|c o]|];
    try apply Base_noSlash.
  destruct (Go.Split (Go.TrimSpace (String c o)) "/") as [|x xs] eqn:E;
    [apply Base_noSlash|].
  right. unfold noSlash, Go.TrimSuffix.
  assert (noSlash (List.last (x :: xs) EmptyString)) as Hlast.
  { rewrite <- E.
    apply (Split_all_of (Go.TrimSpace (String c o)) "/"), last_elem, Split_nonempty. }
  destruct (Go.HasSuffix _ _); [by apply take_all_of | done].
Qed.

(** ** Project types *)

(** X15: [DetectProjectType] answers with one of six types.  A [go.mod]
    or [go.sum] decides for Go whatever else the directory holds; the
    answer is [unknown] exactly when none of the eight marker files
    exists. *)
Theorem DetectProjectType_spec (w : World) (dir : string) :
  let has := λ name, platform.FileExists w (Go.PathJoin [dir; name]) = true in
  (DetectProjectType w dir = ProjectTypeGo ↔ has "go.mod" ∨ has "go.sum") ∧
  (DetectProjectType w dir = ProjectTypeUnknown ↔
     ¬ (has "go.mod" ∨ has "go.sum" ∨ has "Cargo.toml" ∨ has "package.json" ∨
        has "requirements.txt" ∨ has "pyproject.toml" ∨ has "setup.py" ∨
        has "Gemfile")) ∧
  DetectProjectType w dir ∈
    [ProjectTypeGo; ProjectTypeRust; ProjectTypeNode; ProjectTypePython;
     ProjectTypeRuby; ProjectTypeUnknown].
Proof.
  unfold DetectProjectType. cbv zeta.
  generalize (platform.FileExists w (Go.PathJoin [dir; "go.mod"])).
  generalize (platform.FileExists w (Go.PathJoin [dir; "go.sum"])).
  generalize (platform.FileExists w (Go.PathJoin [dir; "Cargo.toml"])).
  generalize (platform.FileExists w (Go.PathJoin [dir; "package.json"])).
  generalize (platform.FileExists w (Go.PathJoin [dir; "requirements.txt"])).
  generalize (platform.FileExists w (Go.PathJoin [dir; "pyproject.toml"])).
  generalize (platform.FileExists w (Go.PathJoin [dir; "setup.py"])).
  generalize (platform.FileExists w (Go.PathJoin [dir; "Gemfile"])).
  intros b8 b7 b6 b5 b4 b3 b2 b1.
  destruct b1, b2; simpl;
    try (split; [split; [auto | done] | split; [split; [done | intros Hn; destruct Hn; auto] |
         apply list_elem_of_here]]).
  destruct b3; simpl.
  { split; [split; [done | by intros [|]]|].
    split; [split; [done | intros Hn; destruct Hn; auto]|]. set_solver. }
  destruct b4; simpl.
  { split; [split; [done | by intros [|]]|].
    split; [split; [done | intros Hn; destruct Hn; auto 6]|]. set_solver. }
  destruct b5, b6, b7; simpl;
    try (split; [split; [done | by intros [|]]|];
         split; [split; [done | intros Hn; destruct Hn; auto 10]|]; set_solver).
  destruct b8; simpl.
  { split; [split; [done | by intros [|]]|].
    split; [split; [done | intros Hn; destruct Hn; auto 10]|]. set_solver. }
  split; [split; [done | by intros [|]]|].
  split; [|set_solver]. split; [|done]. intros _ Hn.
  repeat (destruct Hn as [Hn|Hn]; [done|]). done.
Qed.

(** ** The rows and the colours of the table *)

Import formatter.

Lemma serversToRows_fold (w : World) (l : list Server) (pre : list (list string)) :
  (fold_left
     (λ '(i, rows) server, (S i, <[i := serverRow w server]> rows))
     l (length pre, pre ++ replicate (length l) [])).2
  = pre ++ (serverRow w <$> l).
Proof.
  revert pre. induction l as [|s l IH]; intros pre; [done|].
  cbn [fold_left]. simpl replicate.
  replace (<[length pre := serverRow w s]> (pre ++ [] :: replicate (length l) []))
    with ((pre ++ [serverRow w s]) ++ replicate (length l) []).
  - replace (S (length pre)) with (length (pre ++ [serverRow w s]))
      by (rewrite length_app; simpl; lia).
    rewrite IH. by rewrite <- app_assoc.
  - rewrite <- app_assoc. simpl.
    rewrite insert_app_r_alt by lia. by rewrite Nat.sub_diag.
Qed.

(** X16: [serversToRows] gives one row for each server, in the order of
    the servers; the row has the four cells of the header: the repository,
    the branch, the icon followed by a space and the process name, and the
    address [http://localhost:] followed by the port in decimal. *)
Theorem serversToRows_rows (w : World) (servers : list Server) :
  length (serversToRows w servers) = length servers ∧
  ∀ (i : nat) s, servers !! i = Some s →
    serversToRows w servers !! i =
      Some [Repo s; Branch s;
            getProcessIcon w (Process s) (CWD s) +:+ " " +:+ Process s;
            "http://localhost:" +:+ Go.Itoa (Port s)].
Proof.
  assert (serversToRows w servers = serverRow w <$> servers) as ->.
  { unfold serversToRows. apply (serversToRows_fold w servers []). }
  split; [apply length_fmap|].
  intros i s Hs. by rewrite list_lookup_fmap, Hs.
Qed.

Section CellStyle.
Context {Style : Type} (Foreground : Style → string → Style).

(** X17: the style of a cell, whatever the order in which the loop visits
    the map of colours.  In the process column the project type of the
    working directory decides when it is known; otherwise the colour is
    that of a key found in the process name, and white when no key is
    found.  The address column is blue and the other columns keep the base
    style. *)
Theorem getCellStyle_spec (order : list (string * string)) (w : World)
    (server : Server) (col : Z) (baseStyle : Style) :
  order ≡ₚ colors →
  let style := getCellStyle Foreground order w server col baseStyle in
  let projectType := DetectProjectType w (CWD server) in
  (col ≠ 2 → col ≠ 3 → style = baseStyle) ∧
  (col = 3 → style = Foreground baseStyle "4") ∧
  (col = 2 →
     (projectType = ProjectTypeGo → style = Foreground baseStyle "6") ∧
     (projectType = ProjectTypeRust → style = Foreground baseStyle "1") ∧
     (projectType = ProjectTypeNode → style = Foreground baseStyle "2") ∧
     (projectType = ProjectTypePython → style = Foreground baseStyle "3") ∧
     (projectType = ProjectTypeRuby → style = Foreground baseStyle "1") ∧
     (projectType = ProjectTypeUnknown →
        (∃ processType color, (processType, color) ∈ colors ∧
           Go.Contains (Process server) processType = true ∧
           style = Foreground baseStyle color) ∨
        ((∀ processType color, (processType, color) ∈ colors →
            Go.Contains (Process server) processType = false) ∧
         style = Foreground baseStyle "7"))).
Proof.
  intros Horder style projectType. subst style. unfold getCellStyle.
  fold projectType. split; [|split].
  - intros H2 H3. by rewrite (proj2 (Z.eqb_neq col 2)), (proj2 (Z.eqb_neq col 3)).
  - by intros ->.
  - intros ->. simpl.
    repeat split; try (by intros ->).
    intros ->. simpl.
    destruct (List.find _ order) as [[k c]|] eqn:Hfind.
    + left. apply find_some in Hfind as [Hin Hc].
      exists k, c. split; [|done].
      rewrite <- Horder. by apply list_elem_of_In.
    + right. split; [|done]. intros k c Hin.
      rewrite <- Horder in Hin. apply list_elem_of_In in Hin.
      pose proof (find_none _ _ Hfind _ Hin) as Hn. done.
Qed.

(** X18: the icon and the colour of the process cell follow different
    rules.  For a process named [node], [npm] or [yarn] in a directory
    with a [go.mod] or [go.sum] the icon is the one of Node, which the
    process name decides, and the colour is the one of Go, which the
    directory decides. *)
Theorem icon_and_colour_disagree (order : list (string * string)) (w : World)
    (server : Server) (baseStyle : Style) :
  Process server ∈ ["node"; "npm"; "yarn"] →
  DetectProjectType w (CWD server) = ProjectTypeGo →
  getProcessIcon w (Process server) (CWD server) = iconNode ∧
  getCellStyle Foreground order w server 2 baseStyle = Foreground baseStyle "6" ∧
  (∀ w', getProcessIcon w' (Process server) (CWD server) = iconNode).
Proof.
  intros Hp Hgo.
  assert (∀ w', getProcessIcon w' (Process server) (CWD server) = iconNode) as Hicon.
  { intros w'. unfold getProcessIcon.
    repeat (apply elem_of_cons in Hp as [->|Hp]; [reflexivity|]).
    by apply elem_of_nil in Hp. }
  split; [apply Hicon|]. split; [|done].
  unfold getCellStyle. simpl. by rewrite Hgo.
Qed.

End CellStyle.

Lemma getCellStyle_spec_witness :
  let server := {| Repo := "repo-a"; Branch := "main"; Process := "mynode"; Port := 3001;
                   PID := 0; CWD := "/repo-a" |} in
  let style := getCellStyle (λ (_ : string) c, c) colors Sample.two_listeners server 2 "" in
  let projectType := DetectProjectType Sample.two_listeners (CWD server) in
  (2 ≠ 2 → 2 ≠ 3 → style = "") ∧
  (2 = 3 → style = "4") ∧
  (2 = 2 →
     (projectType = ProjectTypeGo → style = "6") ∧
     (projectType = ProjectTypeRust → style = "1") ∧
     (projectType = ProjectTypeNode → style = "2") ∧
     (projectType = ProjectTypePython → style = "3") ∧
     (projectType = ProjectTypeRuby → style = "1") ∧
     (projectType = ProjectTypeUnknown →
        (∃ processType color, (processType, color) ∈ colors ∧
           Go.Contains (Process server) processType = true ∧ style = color) ∨
        ((∀ processType color, (processType, color) ∈ colors →
            Go.Contains (Process server) processType = false) ∧
         style = "7"))).
Proof.
  apply (getCellStyle_spec (λ (_ : string) c, c) colors Sample.two_listeners
           {| Repo := "repo-a"; Branch := "main"; Process := "mynode"; Port := 3001;
              PID := 0; CWD := "/repo-a" |} 2 "").
  reflexivity.
Defined.

Lemma icon_and_colour_disagree_witness :
  let server := {| Repo := "repo-a"; Branch := "main"; Process := "node"; Port := 3001;
                   PID := 0; CWD := "/repo-a" |} in
  getProcessIcon Sample.go_and_node (Process server) (CWD server) = iconNode ∧
  getCellStyle (λ (_ : string) c, c) colors Sample.go_and_node server 2 "" = "6" ∧
  (∀ w', getProcessIcon w' (Process server) (CWD server) = iconNode).
Proof.
  apply (icon_and_colour_disagree (λ (_ : string) c, c) colors Sample.go_and_node
           {| Repo := "repo-a"; Branch := "main"; Process := "node"; Port := 3001;
              PID := 0; CWD := "/repo-a" |} "").
  - apply list_elem_of_here.
  - by vm_compute.
Defined.

Example serversToRows_two_listeners :
  serversToRows Sample.two_listeners
    [{| Repo := "repo-a"; Branch := "main"; Process := "node"; Port := 3001;
        PID := 0; CWD := "/repo-a" |}]
  = [["repo-a"; "main"; iconNode +:+ " node"; "http://localhost:3001"]].
Proof. by vm_compute. Qed.

(** ** The caches of one run *)

(** X19: the two caches hold what the direct queries answer.  The
    membership cache has an entry exactly for the directories of the map
    that are not empty, with the answer of [git.IsRepo]; the context cache
    has an entry exactly for those of them that are repositories, with the
    name and the branch of the directory.  So the second loop never finds
    a repository without its context. *)
Theorem caches_complete (w : World) (cwdMap : gmap Z string) :
  let gitRepoCache := batchCheckGitRepos w (uniqueCWDs cwdMap) in
  let gitInfoCache := batchGetGitInfo w (gitRepoDirs gitRepoCache) in
  (∀ d b, gitRepoCache !! d = Some b ↔
     (d ≠ EmptyString ∧ ∃ p, cwdMap !! p = Some d) ∧ b = git.IsRepo w d) ∧
  (∀ d i, gitInfoCache !! d = Some i ↔
     (d ≠ EmptyString ∧ ∃ p, cwdMap !! p = Some d) ∧ git.IsRepo w d = true ∧
     i = {| repo := git.GetRepoName w d; branch := git.GetBranch w d |}) ∧
  (∀ d, default false (gitRepoCache !! d) = true → is_Some (gitInfoCache !! d)).
Proof.
  intros gitRepoCache gitInfoCache.
  assert (∀ d b, gitRepoCache !! d = Some b ↔
     (d ≠ EmptyString ∧ ∃ p, cwdMap !! p = Some d) ∧ b = git.IsRepo w d) as Hrepo.
  { intros d b. subst gitRepoCache.
    by rewrite batchCheckGitRepos_lookup, uniqueCWDs_elem. }
  assert (∀ d i, gitInfoCache !! d = Some i ↔
     (d ≠ EmptyString ∧ ∃ p, cwdMap !! p = Some d) ∧ git.IsRepo w d = true ∧
     i = {| repo := git.GetRepoName w d; branch := git.GetBranch w d |}) as Hinfo.
  { intros d i. subst gitInfoCache.
    rewrite batchGetGitInfo_lookup, gitRepoDirs_elem, Hrepo.
    unfold getGitInfoParallel. split.
    - by intros [[? ?] ?].
    - by intros (? & ? & ?). }
  split; [done|]. split; [done|].
  intros d Hd. destruct (gitRepoCache !! d) as [b|] eqn:Hb; [|done].
  simpl in Hd. subst b. apply Hrepo in Hb as [Hin Htrue].
  eexists. apply Hinfo. by split.
Qed.
